(** * wagcextractor: the member-extraction pipeline and the export handler

    A shallow embedding of [server.js]: JavaScript values as an inductive
    type, exceptions as an error monad, the request handlers as functions
    of the request body and of the collaborators they call
    (the WhatsApp client, the file system, the CSV and XLSX libraries). *)

From Stdlib Require Import String Ascii List ZArith Lia Bool Permutation.
From Stdlib Require DecimalN.
Set Warnings "-register-all".
Import ListNotations.
Open Scope string_scope.
Open Scope list_scope.

(* ================================================================== *)
(** ** JavaScript values *)
(* ================================================================== *)

(** Values the handlers see.  [JNum n] is the number [n], an integer;
    a JavaScript number holds every integer up to 2^53 in absolute
    value exactly, and the serializer below is that of the integers of
    the safe range.  [JNaN] and the two infinities [JInf] are apart;
    fractions and the negative zero have no counterpart.  [JColl] is a
    Map-like collection, the one object that answers [keys()] and
    [values()].  Plain objects list their own enumerable properties in
    enumeration order. *)
Inductive JsVal : Type :=
| JUndefined
| JNull
| JBool (b : bool)
| JNum (n : Z)
| JNaN
| JInf (negative : bool)
| JStr (s : string)
| JArr (elems : list JsVal)
| JObj (props : list (string * JsVal))
| JColl (keys : list JsVal) (values : list JsVal).

(** Thrown values are [Error] instances of the standard classes. *)
Inductive ErrorName := Error | TypeError | SyntaxError | RangeError.

Record JsError := { err_name : ErrorName; err_message : string }.

Definition error_name_string (n : ErrorName) : string :=
  match n with
  | Error => "Error"
  | TypeError => "TypeError"
  | SyntaxError => "SyntaxError"
  | RangeError => "RangeError"
  end.

(** [String(err)], that is [Error.prototype.toString]. *)
Definition String_of_error (e : JsError) : string :=
  if (err_message e =? "")%string then error_name_string (err_name e)
  else error_name_string (err_name e) ++ ": " ++ err_message e.

(** A computation that returns or throws; also the state a promise
    settles in (fulfilled or rejected). *)
Inductive Result (A : Type) : Type :=
| Ok (a : A)
| Throw (e : JsError).
Arguments Ok {A} a.
Arguments Throw {A} e.

Definition bind {A B : Type} (c : Result A) (k : A -> Result B) : Result B :=
  match c with
  | Ok a => k a
  | Throw e => Throw e
  end.

Declare Scope js_scope.
Delimit Scope js_scope with js.
Notation "x <- c ;; k" := (bind c (fun x => k))
  (at level 61, c at next level, right associativity) : js_scope.
Open Scope js_scope.

(** [try { c } catch (e) { h e }] and [promise.catch(h)]. *)
Definition catch {A : Type} (c : Result A) (h : JsError -> Result A) : Result A :=
  match c with
  | Ok a => Ok a
  | Throw e => h e
  end.

Fixpoint mapM {A B : Type} (f : A -> Result B) (l : list A) : Result (list B) :=
  match l with
  | [] => Ok []
  | x :: r => y <- f x ;; ys <- mapM f r ;; Ok (y :: ys)
  end.

(** [Boolean(v)]. *)
Definition truthy (v : JsVal) : bool :=
  match v with
  | JUndefined | JNull | JNaN => false
  | JBool b => b
  | JNum n => negb (n =? 0)%Z
  | JInf _ => true
  | JStr s => negb (s =? "")%string
  | JArr _ | JObj _ | JColl _ _ => true
  end.

Definition nullish (v : JsVal) : bool :=
  match v with
  | JUndefined | JNull => true
  | _ => false
  end.

(** [typeof v]. *)
Definition typeof (v : JsVal) : string :=
  match v with
  | JUndefined => "undefined"
  | JNull => "object"
  | JBool _ => "boolean"
  | JNum _ | JNaN | JInf _ => "number"
  | JStr _ => "string"
  | JArr _ | JObj _ | JColl _ _ => "object"
  end.

Definition isArray (v : JsVal) : bool :=
  match v with
  | JArr _ => true
  | _ => false
  end.

(** [a || b]. *)
Definition js_or (a b : JsVal) : JsVal := if truthy a then a else b.

Fixpoint own_prop (props : list (string * JsVal)) (k : string) : JsVal :=
  match props with
  | [] => JUndefined
  | (k', v) :: r => if (k' =? k)%string then v else own_prop r k
  end.

Definition cannot_read (what k : string) : JsError :=
  {| err_name := TypeError;
     err_message := "Cannot read properties of " ++ what ++ " (reading '" ++ k ++ "')" |}.

(** [v.k] for a data property [k]: a [TypeError] on [undefined] and
    [null], the own property of a plain object, [length] of an array or
    string, [undefined] elsewhere. *)
Definition member (v : JsVal) (k : string) : Result JsVal :=
  match v with
  | JUndefined => Throw (cannot_read "undefined" k)
  | JNull => Throw (cannot_read "null" k)
  | JObj props => Ok (own_prop props k)
  | JArr l => Ok (if (k =? "length")%string then JNum (Z.of_nat (length l)) else JUndefined)
  | JStr s => Ok (if (k =? "length")%string then JNum (Z.of_nat (String.length s)) else JUndefined)
  | _ => Ok JUndefined
  end.

(** [v?.k]. *)
Definition opt_member (v : JsVal) (k : string) : Result JsVal :=
  if nullish v then Ok JUndefined else member v k.

(** [typeof v.k === "function"] for the two methods the collector asks
    for. *)
Definition has_method (v : JsVal) (k : string) : bool :=
  match v with
  | JColl _ _ | JArr _ => (k =? "keys")%string || (k =? "values")%string
  | _ => false
  end.

Definition not_a_function (what : string) : JsError :=
  {| err_name := TypeError; err_message := what ++ " is not a function" |}.

(** [Array.from(v.keys())] and [Array.from(v.values())]. *)
Definition call_keys (v : JsVal) : Result (list JsVal) :=
  match v with
  | JColl ks _ => Ok ks
  | JArr l => Ok (map (fun i => JNum (Z.of_nat i)) (seq 0 (length l)))
  | JUndefined | JNull => x <- member v "keys" ;; Ok []
  | _ => Throw (not_a_function "chat.participants.keys")
  end.

Definition call_values (v : JsVal) : Result (list JsVal) :=
  match v with
  | JColl _ vs => Ok vs
  | JArr l => Ok l
  | JUndefined | JNull => x <- member v "values" ;; Ok []
  | _ => Throw (not_a_function "chat.participants.values")
  end.

(** The elements [v.map(f)] visits. *)
Definition array_elems (v : JsVal) : list JsVal :=
  match v with
  | JArr l => l
  | _ => []
  end.

(** [Object.values(v)] of an object. *)
Definition Object_values (v : JsVal) : list JsVal :=
  match v with
  | JObj props => map snd props
  | JArr l => l
  | _ => []
  end.

(** SameValueZero, the equality of [Set]: primitives by value, objects
    by reference; two occurrences of an object in a list of Map keys are
    two references. *)
Definition same_value_zero (a b : JsVal) : bool :=
  match a, b with
  | JUndefined, JUndefined => true
  | JNull, JNull => true
  | JBool x, JBool y => Bool.eqb x y
  | JNum x, JNum y => (x =? y)%Z
  | JNaN, JNaN => true
  | JInf x, JInf y => Bool.eqb x y
  | JStr x, JStr y => (x =? y)%string
  | _, _ => false
  end.

(** [new Set(l)] in insertion order: [set_add_all seen l] adds the
    elements of [l] that are not in [seen] yet. *)
Fixpoint set_add_all (seen l : list JsVal) : list JsVal :=
  match l with
  | [] => seen
  | x :: r =>
      if existsb (same_value_zero x) seen then set_add_all seen r
      else set_add_all (seen ++ [x]) r
  end.

(** [[...new Set(l)]]. *)
Definition unique (l : list JsVal) : list JsVal := set_add_all [] l.

(* ================================================================== *)
(** ** The participant normalizer *)
(* ================================================================== *)

(** [getParticipantId(part)]. *)
Definition getParticipantId (part : JsVal) : Result JsVal :=
  if negb (truthy part) then Ok JNull
  else if (typeof part =? "string")%string then Ok part
  else
    pid <- member part "id" ;;
    nested <- (if truthy pid
               then s <- member pid "_serialized" ;; Ok (typeof s =? "string")%string
               else Ok false) ;;
    if nested then (pid' <- member part "id" ;; member pid' "_serialized")
    else
      ser <- member part "_serialized" ;;
      if truthy ser && (typeof ser =? "string")%string
      then member part "_serialized"
      else Ok JNull.

(** The normalizer as the specification words it: null for a falsy
    input, a string unchanged, else the nested identifier when it is a
    string, else the top-level identifier field when it is a string,
    else null. *)
Definition field (v : JsVal) (k : string) : JsVal :=
  match v with
  | JObj props => own_prop props k
  | _ => JUndefined
  end.

Definition normalize_spec (part : JsVal) : JsVal :=
  if negb (truthy part) then JNull
  else match part with
       | JStr s => JStr s
       | _ =>
           match field (field part "id") "_serialized" with
           | JStr s => JStr s
           | _ =>
               match field part "_serialized" with
               | JStr s => JStr s
               | _ => JNull
               end
           end
       end.

(** The same with the guard the code has on the top-level field: an
    empty string there is not an identifier. *)
Definition normalize_nonempty (part : JsVal) : JsVal :=
  if negb (truthy part) then JNull
  else match part with
       | JStr s => JStr s
       | _ =>
           match field (field part "id") "_serialized" with
           | JStr s => JStr s
           | _ =>
               match field part "_serialized" with
               | JStr s => if (s =? "")%string then JNull else JStr s
               | _ => JNull
               end
           end
       end.

(* ================================================================== *)
(** ** Strings *)
(* ================================================================== *)

Fixpoint drop (n : nat) (s : string) : string :=
  match n, s with
  | O, _ => s
  | S _, EmptyString => EmptyString
  | S m, String _ r => drop m r
  end.

(** [s.includes(pat)]. *)
Fixpoint includes (pat s : string) : bool :=
  prefix pat s ||
  match s with
  | EmptyString => false
  | String _ r => includes pat r
  end.

(** [s.replace(pat, rep)] for a string pattern: the first occurrence
    only. *)
Fixpoint replace (pat rep s : string) : string :=
  if prefix pat s then rep ++ drop (String.length pat) s
  else match s with
       | EmptyString => s
       | String c r => String c (replace pat rep r)
       end.

(* ================================================================== *)
(** ** The participant collector *)
(* ================================================================== *)

(** Lines 151-173 of the [/extract] handler: the candidates of
    [chat.participants] by shape, then [filter(Boolean)] and the
    [Set]. *)
Definition collect (chat : JsVal) : Result (list JsVal) :=
  participants <- member chat "participants" ;;
  rawParticipants <-
    (if isArray participants then mapM getParticipantId (array_elems participants)
     else if truthy participants && (typeof participants =? "object")%string then
       if has_method participants "keys" then
         ks <- call_keys participants ;;
         if (length ks =? 0)%nat
         then vs <- call_values participants ;; mapM getParticipantId vs
         else Ok ks
       else mapM getParticipantId (Object_values participants)
     else
       groupMetadata <- member chat "groupMetadata" ;;
       nested <- (if truthy groupMetadata
                  then ps <- member groupMetadata "participants" ;; Ok (isArray ps)
                  else Ok false) ;;
       if nested
       then ps <- member groupMetadata "participants" ;;
            mapM getParticipantId (array_elems ps)
       else Ok []) ;;
  Ok (unique (filter truthy rawParticipants)).

(* ================================================================== *)
(** ** The contact resolver *)
(* ================================================================== *)

(** The calls of the WhatsApp client the pipeline awaits; each promise
    settles fulfilled ([Ok]) or rejected ([Throw]). *)
Record Client := {
  getChatById : JsVal -> Result JsVal;
  getContactById : JsVal -> Result JsVal
}.

(** [{ id, name, ok }]. *)
Record Resolved := { r_id : JsVal; r_name : JsVal; r_ok : bool }.

Definition unresolved_null : Resolved :=
  {| r_id := JNull; r_name := JNull; r_ok := false |}.

(** [contact?.pushname || contact?.name ||
     (contact?.number ? contact.number : null) || null]. *)
Definition contactName (contact : JsVal) : Result JsVal :=
  pushname <- opt_member contact "pushname" ;;
  if truthy pushname then Ok pushname
  else
    name <- opt_member contact "name" ;;
    if truthy name then Ok name
    else
      number <- opt_member contact "number" ;;
      third <- (if truthy number then member contact "number" else Ok JNull) ;;
      Ok (js_or third JNull).

(** The promise built for one id. *)
Definition contactPromise (client : Client) (id : JsVal) : Result Resolved :=
  if negb (typeof id =? "string")%string then Ok unresolved_null
  else
    catch (contact <- getContactById client id ;;
           name <- contactName contact ;;
           Ok {| r_id := id; r_name := name; r_ok := true |})
          (fun _ => Ok {| r_id := id; r_name := JNull; r_ok := false |}).

(** An element of the array [Promise.allSettled] fulfils with. *)
Inductive Settled (A : Type) : Type :=
| Fulfilled (value : A)
| Rejected (reason : JsError).
Arguments Fulfilled {A} value.
Arguments Rejected {A} reason.

Definition allSettled {A : Type} (promises : list (Result A)) : list (Settled A) :=
  map (fun p => match p with
                | Ok v => Fulfilled v
                | Throw e => Rejected e
                end) promises.

(** Lines 176-195: [participantsResolved]. *)
Definition resolveContacts (client : Client) (rawParticipants : list JsVal)
  : list Resolved :=
  let contactPromises := map (contactPromise client) rawParticipants in
  let settled := allSettled contactPromises in
  filter (fun p => truthy (r_id p))
         (map (fun s => match s with
                        | Fulfilled v => v
                        | Rejected _ => unresolved_null
                        end) settled).

(* ================================================================== *)
(** ** The entry classifier *)
(* ================================================================== *)

Inductive EntryType := TNumber | THidden.

Definition type_string (t : EntryType) : string :=
  match t with
  | TNumber => "number"
  | THidden => "hidden"
  end.

(** An element of [allEntries]; [e_number = None] is an object without
    the [number] key. *)
Record Entry := {
  e_groupId : JsVal;
  e_groupName : JsVal;
  e_name : JsVal;
  e_number : option string;
  e_id : JsVal;
  e_type : EntryType
}.

Record NumberRow := { n_number : string; n_name : JsVal }.
Record HiddenRow := { h_id : JsVal; h_name : JsVal }.

Definition phone_tag : string := "@c.us".

(** [id.includes("@c.us")]: the string method, or the array method of
    the same name. *)
Definition call_includes (id : JsVal) : Result bool :=
  match id with
  | JStr s => Ok (includes phone_tag s)
  | JArr l => Ok (existsb (same_value_zero (JStr phone_tag)) l)
  | JUndefined | JNull => x <- member id "includes" ;; Ok false
  | _ => Throw (not_a_function "id.includes")
  end.

(** [id.replace("@c.us", "")]. *)
Definition call_replace (id : JsVal) : Result string :=
  match id with
  | JStr s => Ok (replace phone_tag "" s)
  | JUndefined | JNull => x <- member id "replace" ;; Ok ""
  | _ => Throw (not_a_function "id.replace")
  end.

(** The three arrays the classification loop pushes to. *)
Record Acc := {
  numbers : list NumberRow;
  hidden : list HiddenRow;
  allEntries : list Entry
}.

(** The body of [for (const p of participantsResolved)] (lines
    202-212): the row pushed to [numbers] or to [hidden] and the entry
    pushed to [allEntries]. *)
Definition classifyStep (gid gName : JsVal) (p : Resolved) (acc : Acc)
  : Result Acc :=
  let id := r_id p in
  let displayName := js_or (r_name p) JNull in
  tagged <- call_includes id ;;
  if tagged : bool then
    cleanNumber <- call_replace id ;;
    Ok {| numbers := numbers acc ++
            [{| n_number := cleanNumber;
                n_name := js_or displayName (JStr cleanNumber) |}];
          hidden := hidden acc;
          allEntries := allEntries acc ++
            [{| e_groupId := gid; e_groupName := gName;
                e_name := js_or displayName (JStr cleanNumber);
                e_number := Some cleanNumber; e_id := id; e_type := TNumber |}] |}
  else
    Ok {| numbers := numbers acc;
          hidden := hidden acc ++
            [{| h_id := id; h_name := js_or displayName id |}];
          allEntries := allEntries acc ++
            [{| e_groupId := gid; e_groupName := gName;
                e_name := js_or displayName id;
                e_number := None; e_id := id; e_type := THidden |}] |}.

(** The loop: an exception leaves the arrays as the iterations before
    it made them. *)
Fixpoint classifyAll (gid gName : JsVal) (ps : list Resolved) (acc : Acc)
  : Result unit * Acc :=
  match ps with
  | [] => (Ok tt, acc)
  | p :: rest =>
      match classifyStep gid gName p acc with
      | Ok acc' => classifyAll gid gName rest acc'
      | Throw err => (Throw err, acc)
      end
  end.

(* ================================================================== *)
(** ** The extraction orchestrator *)
(* ================================================================== *)

Record GroupResult := {
  g_groupId : JsVal;
  g_groupName : JsVal;
  g_numbers : list NumberRow;
  g_hiddenIds : list HiddenRow;
  g_error : option string
}.

(** The body of [try] for one group id: the result it pushes, or the
    exception, and [allEntries] after it. *)
Definition extractGroup (client : Client) (gid : JsVal) (all : list Entry)
  : Result GroupResult * list Entry :=
  match (chat <- getChatById client gid ;;
         name <- opt_member chat "name" ;;
         rawParticipants <- collect chat ;;
         Ok (js_or name gid, resolveContacts client rawParticipants)) with
  | Throw err => (Throw err, all)
  | Ok (gName, participantsResolved) =>
      let '(r, acc) :=
        classifyAll gid gName participantsResolved
                    {| numbers := []; hidden := []; allEntries := all |} in
      match r with
      | Ok _ => (Ok {| g_groupId := gid; g_groupName := gName;
                       g_numbers := numbers acc; g_hiddenIds := hidden acc;
                       g_error := None |},
                 allEntries acc)
      | Throw err => (Throw err, allEntries acc)
      end
  end.

Definition failedGroup (gid : JsVal) (err : JsError) : GroupResult :=
  {| g_groupId := gid; g_groupName := gid; g_numbers := []; g_hiddenIds := [];
     g_error := Some (String_of_error err) |}.

(** [for (const gid of selectedGroups) { try ... catch ... }]. *)
Fixpoint extractGroups (client : Client) (selectedGroups : list JsVal)
  (perGroupResults : list GroupResult) (all : list Entry)
  : list GroupResult * list Entry :=
  match selectedGroups with
  | [] => (perGroupResults, all)
  | gid :: rest =>
      let '(r, all') := extractGroup client gid all in
      match r with
      | Ok g => extractGroups client rest (perGroupResults ++ [g]) all'
      | Throw err =>
          extractGroups client rest (perGroupResults ++ [failedGroup gid err]) all'
      end
  end.

(** What [members] is rendered with. *)
Record MembersView := {
  perGroupResults : list GroupResult;
  combined_all : list Entry;
  combined_numbers : list Entry;
  combined_hidden : list Entry
}.

Definition is_type (t : EntryType) (e : Entry) : bool :=
  (type_string (e_type e) =? type_string t)%string.

(** [extract(groupIds)]: the loop and the combined views. *)
Definition extract (client : Client) (selectedGroups : list JsVal) : MembersView :=
  let '(results, all) := extractGroups client selectedGroups [] [] in
  {| perGroupResults := results;
     combined_all := all;
     combined_numbers := filter (is_type TNumber) all;
     combined_hidden := filter (is_type THidden) all |}.

(** The module-level variables. *)
Record Globals := {
  qrCodeData : JsVal;
  isAuthenticated : bool;
  groupsCache : list JsVal
}.

Inductive Response : Type :=
| Redirect (path : string)
| RenderMembers (view : MembersView)
| Send (status : nat) (text : string)
| Download (full fname : string).

(** [app.post("/extract", ...)]: the response (or the exception that
    leaves the handler) and the module-level variables after it. *)
Definition extract_handler (client : Client) (g : Globals) (body : JsVal)
  : Result Response * Globals :=
  if negb (isAuthenticated g) then (Ok (Redirect "/"), g)
  else
    match member body "selectedGroups" with
    | Throw err => (Throw err, g)
    | Ok selectedGroups =>
        if negb (truthy selectedGroups) then (Ok (Redirect "/groups"), g)
        else
          let selectedGroups :=
            match selectedGroups with
            | JArr l => l
            | v => [v]
            end in
          (Ok (RenderMembers (extract client selectedGroups)), g)
    end.

(** The session events, which do assign the module-level variables. *)
Definition on_qr (dataUrl : Result JsVal) (g : Globals) : Globals :=
  match dataUrl with
  | Ok url => {| qrCodeData := url; isAuthenticated := false;
                 groupsCache := groupsCache g |}
  | Throw _ => g
  end.

Definition is_group (c : JsVal) : bool :=
  match member c "isGroup" with
  | Ok (JBool true) => true
  | _ => false
  end ||
  match member c "id" with
  | Ok cid =>
      truthy cid &&
      match member cid "server" with
      | Ok (JStr s) => (s =? "g.us")%string
      | _ => false
      end
  | Throw _ => false
  end.

Definition refreshGroups (getChats : Result (list JsVal)) (g : Globals) : Globals :=
  match getChats with
  | Ok chats =>
      if forallb (fun c => negb (nullish c)) chats
      then {| qrCodeData := qrCodeData g; isAuthenticated := isAuthenticated g;
              groupsCache := filter is_group chats |}
      else g
  | Throw _ => g
  end.

Definition on_ready (getChats : Result (list JsVal)) (g : Globals) : Globals :=
  refreshGroups getChats
    {| qrCodeData := qrCodeData g; isAuthenticated := true;
       groupsCache := groupsCache g |}.

Definition on_disconnected (g : Globals) : Globals :=
  {| qrCodeData := qrCodeData g; isAuthenticated := false;
     groupsCache := groupsCache g |}.

(* ================================================================== *)
(** ** JSON text *)
(* ================================================================== *)

Definition LF : ascii := "010"%char.
Definition DQUOTE : ascii := "034"%char.
Definition BACKSLASH : ascii := "092"%char.

Definition hex_digit (n : nat) : ascii :=
  match n with
  | 0 => "0" | 1 => "1" | 2 => "2" | 3 => "3" | 4 => "4" | 5 => "5"
  | 6 => "6" | 7 => "7" | 8 => "8" | 9 => "9" | 10 => "a" | 11 => "b"
  | 12 => "c" | 13 => "d" | 14 => "e" | _ => "f"
  end%char.

(** One code unit of a string in [QuoteJSONString]: the short escapes,
    [\u00xx] for the other control characters, the character itself
    elsewhere.  (Characters are the 8-bit ones of Rocq strings, so no
    surrogate occurs.) *)
Definition escape_char (c : ascii) : string :=
  let n := nat_of_ascii c in
  if (n =? 8)%nat then String BACKSLASH "b"
  else if (n =? 9)%nat then String BACKSLASH "t"
  else if (n =? 10)%nat then String BACKSLASH "n"
  else if (n =? 12)%nat then String BACKSLASH "f"
  else if (n =? 13)%nat then String BACKSLASH "r"
  else if (n =? 34)%nat then String BACKSLASH (String DQUOTE "")
  else if (n =? 92)%nat then String BACKSLASH (String BACKSLASH "")
  else if (n <? 32)%nat
       then String BACKSLASH
              (String "u" (String "0" (String "0"
                 (String (hex_digit (n / 16)) (String (hex_digit (n mod 16)) "")))))
  else String c "".

Fixpoint escape (s : string) : string :=
  match s with
  | EmptyString => EmptyString
  | String c r => (escape_char c ++ escape r)%string
  end.

Definition QuoteJSONString (s : string) : string :=
  String DQUOTE (escape s ++ String DQUOTE "").

Fixpoint uint_string (u : Decimal.uint) : string :=
  match u with
  | Decimal.Nil => ""
  | Decimal.D0 r => String "0" (uint_string r)
  | Decimal.D1 r => String "1" (uint_string r)
  | Decimal.D2 r => String "2" (uint_string r)
  | Decimal.D3 r => String "3" (uint_string r)
  | Decimal.D4 r => String "4" (uint_string r)
  | Decimal.D5 r => String "5" (uint_string r)
  | Decimal.D6 r => String "6" (uint_string r)
  | Decimal.D7 r => String "7" (uint_string r)
  | Decimal.D8 r => String "8" (uint_string r)
  | Decimal.D9 r => String "9" (uint_string r)
  end.

(** [Number.MAX_SAFE_INTEGER], 2^53 - 1, and [Number.isSafeInteger]. *)
Definition MAX_SAFE_INTEGER : Z := 9007199254740991.

Definition safe_integer (n : Z) : bool := (Z.abs n <=? MAX_SAFE_INTEGER)%Z.

(** [Number::toString] of a safe integer: its decimal digits.  (Beyond
    the safe range JavaScript prints the shortest digits that identify
    the double, and an exponent from 10^21 on; those are not computed
    here, and the statements below keep to the safe range.) *)
Definition Number_toString (n : Z) : string :=
  if (n <? 0)%Z then String "-" (uint_string (N.to_uint (Z.to_N (- n))))
  else uint_string (N.to_uint (Z.to_N n)).

(** The [gap] of [JSON.stringify(value, null, 2)]. *)
Definition gap : string := "  ".

Definition wrap (open close : ascii) (stepback indent : string)
  (partial : list string) : string :=
  match partial with
  | [] => String open (String close "")
  | _ => (String open (String LF indent) ++
          String.concat (String "," (String LF indent)) partial ++
          String LF stepback ++ String close "")%string
  end.

(** [SerializeJSONProperty] at indentation [indent]; [None] is
    [undefined]. *)
Fixpoint SerializeJSONProperty (indent : string) (v : JsVal) : option string :=
  match v with
  | JUndefined => None
  | JNull | JNaN | JInf _ => Some "null"
  | JBool true => Some "true"
  | JBool false => Some "false"
  | JNum n => Some (Number_toString n)
  | JStr s => Some (QuoteJSONString s)
  | JArr l =>
      let inner := (indent ++ gap)%string in
      Some (wrap "[" "]" indent inner
              (map (fun x => match SerializeJSONProperty inner x with
                             | Some t => t
                             | None => "null"
                             end) l))
  | JObj props =>
      let inner := (indent ++ gap)%string in
      Some (wrap "{" "}" indent inner
              (flat_map (fun kv => match SerializeJSONProperty inner (snd kv) with
                                   | Some t => [(QuoteJSONString (fst kv) ++ ": " ++ t)%string]
                                   | None => []
                                   end) props))
  | JColl _ _ => Some "{}"
  end.

(** [JSON.stringify(v, null, 2)]. *)
Definition JSON_stringify (v : JsVal) : option string :=
  SerializeJSONProperty "" v.

(** *** Parsing *)

(** What reading a piece of text gives: a value and the text after it;
    [Malformed], where [JSON.parse] throws a [SyntaxError]; or
    [Unmodelled], where the text holds something the values above
    cannot hold (a number that is neither a safe integer nor an
    infinity, a code unit above 255) and nothing is said of what
    [JSON.parse] does. *)
Inductive Parse (A : Type) : Type :=
| Parsed (a : A) (rest : string)
| Malformed
| Unmodelled.
Arguments Parsed {A} a rest.
Arguments Malformed {A}.
Arguments Unmodelled {A}.

Definition and_then {A B : Type} (p : Parse A) (k : A -> string -> Parse B)
  : Parse B :=
  match p with
  | Parsed a rest => k a rest
  | Malformed => Malformed
  | Unmodelled => Unmodelled
  end.

Definition is_ws (c : ascii) : bool :=
  let n := nat_of_ascii c in
  (n =? 32)%nat || (n =? 9)%nat || (n =? 10)%nat || (n =? 13)%nat.

Fixpoint skip_ws (s : string) : string :=
  match s with
  | EmptyString => EmptyString
  | String c r => if is_ws c then skip_ws r else s
  end.

(** Is [c] the next character of [s]? *)
Definition closes (c : ascii) (s : string) : bool :=
  match s with
  | EmptyString => false
  | String d _ => (d =? c)%char
  end.

Definition digit_of (c : ascii) : option (Decimal.uint -> Decimal.uint) :=
  match nat_of_ascii c with
  | 48 => Some Decimal.D0 | 49 => Some Decimal.D1 | 50 => Some Decimal.D2
  | 51 => Some Decimal.D3 | 52 => Some Decimal.D4 | 53 => Some Decimal.D5
  | 54 => Some Decimal.D6 | 55 => Some Decimal.D7 | 56 => Some Decimal.D8
  | 57 => Some Decimal.D9
  | _ => None
  end.

(** The longest run of digits at the head of [s]. *)
Fixpoint read_digits (s : string) : Decimal.uint * string :=
  match s with
  | EmptyString => (Decimal.Nil, EmptyString)
  | String c r =>
      match digit_of c with
      | Some d => let (u, r') := read_digits r in (d u, r')
      | None => (Decimal.Nil, s)
      end
  end.

(** The number an integer [n >= 0] with the sign [negative] is: itself
    in the safe range (the negative zero apart), an infinity from 2^1024
    on; the integers between are rounded by [JSON.parse] to the nearest
    double, which is not computed here. *)
Definition number_of_integer (negative : bool) (n : Z) : option JsVal :=
  if (n =? 0)%Z then (if negative then None else Some (JNum 0))
  else if (n <=? MAX_SAFE_INTEGER)%Z then Some (JNum (if negative then - n else n))
  else if (2 ^ 1024 <=? n)%Z then Some (JInf negative)
  else None.

(** The value of the literal with integer digits [ip], fraction digits
    [fp] and exponent [e], when it is an integer. *)
Definition number_value (negative : bool) (ip fp : Decimal.uint) (e : Z)
  : option JsVal :=
  let k := Z.of_nat (Decimal.nb_digits fp) in
  let m := (Z.of_N (N.of_uint ip) * 10 ^ k + Z.of_N (N.of_uint fp))%Z in
  if (k <=? e)%Z then number_of_integer negative (m * 10 ^ (e - k))
  else if (m mod 10 ^ (k - e) =? 0)%Z
       then number_of_integer negative (m / 10 ^ (k - e))
       else None.

(** The fraction of a number literal, if there is one: a point and at
    least one digit. *)
Definition read_fraction (s : string) : option (Decimal.uint * string) :=
  if closes "." s then
    let (fp, rest) := read_digits (drop 1 s) in
    if Decimal.uint_beq fp Decimal.Nil then None else Some (fp, rest)
  else Some (Decimal.Nil, s).

(** The exponent of a number literal, if there is one: [e] or [E], an
    optional sign and at least one digit. *)
Definition read_exponent (s : string) : option (Z * string) :=
  if closes "e" s || closes "E" s then
    let s1 := drop 1 s in
    let minus := closes "-" s1 in
    let s2 := if minus || closes "+" s1 then drop 1 s1 else s1 in
    let (ep, rest) := read_digits s2 in
    if Decimal.uint_beq ep Decimal.Nil then None
    else Some (if minus then (- Z.of_N (N.of_uint ep))%Z
               else Z.of_N (N.of_uint ep), rest)
  else Some (0%Z, s).

(** A JSON number: an optional minus sign, digits without a leading
    zero, an optional fraction and an optional exponent. *)
Definition parse_number (s : string) : Parse JsVal :=
  let negative := closes "-" s in
  let (ip, s1) := read_digits (if negative then drop 1 s else s) in
  if Decimal.uint_beq ip Decimal.Nil then Malformed
  else if negb (Decimal.uint_beq (Decimal.unorm ip) ip) then Malformed
  else
    match read_fraction s1 with
    | None => Malformed
    | Some (fp, s2) =>
        match read_exponent s2 with
        | None => Malformed
        | Some (e, rest) =>
            match number_value negative ip fp e with
            | Some v => Parsed v rest
            | None => Unmodelled
            end
        end
    end.

Definition hex_value (c : ascii) : option nat :=
  let n := nat_of_ascii c in
  if (48 <=? n)%nat && (n <=? 57)%nat then Some (n - 48)%nat
  else if (97 <=? n)%nat && (n <=? 102)%nat then Some (n - 87)%nat
  else if (65 <=? n)%nat && (n <=? 70)%nat then Some (n - 55)%nat
  else None.

(** The code unit [\uh1h2h3h4] stands for. *)
Definition unicode_escape (h1 h2 h3 h4 : ascii) : option nat :=
  match hex_value h1, hex_value h2, hex_value h3, hex_value h4 with
  | Some a, Some b, Some c, Some d => Some (4096 * a + 256 * b + 16 * c + d)%nat
  | _, _, _, _ => None
  end.

Definition cons_char (c : ascii) (r : Parse string) : Parse string :=
  and_then r (fun s rest => Parsed (String c s) rest).

(** The characters of a string literal after its opening quote, up to
    the closing quote. *)
Fixpoint parse_chars (s : string) : Parse string :=
  match s with
  | EmptyString => Malformed
  | String c r =>
      if (c =? DQUOTE)%char then Parsed EmptyString r
      else if (c =? BACKSLASH)%char then
        match r with
        | EmptyString => Malformed
        | String e r' =>
            if (e =? DQUOTE)%char then cons_char DQUOTE (parse_chars r')
            else if (e =? BACKSLASH)%char then cons_char BACKSLASH (parse_chars r')
            else if (e =? "/")%char then cons_char "/" (parse_chars r')
            else if (e =? "b")%char then cons_char "008" (parse_chars r')
            else if (e =? "f")%char then cons_char "012" (parse_chars r')
            else if (e =? "n")%char then cons_char "010" (parse_chars r')
            else if (e =? "r")%char then cons_char "013" (parse_chars r')
            else if (e =? "t")%char then cons_char "009" (parse_chars r')
            else if (e =? "u")%char then
              match r' with
              | String h1 (String h2 (String h3 (String h4 r''))) =>
                  match unicode_escape h1 h2 h3 h4 with
                  | Some u =>
                      if (u <? 256)%nat
                      then cons_char (ascii_of_nat u) (parse_chars r'')
                      else Unmodelled
                  | None => Malformed
                  end
              | _ => Malformed
              end
            else Malformed
        end
      else if (nat_of_ascii c <? 32)%nat then Malformed
      else cons_char c (parse_chars r)
  end.

Definition expect (lit : string) (v : JsVal) (s : string) : Parse JsVal :=
  if prefix lit s then Parsed v (drop (String.length lit) s) else Malformed.

(** Is [k] an array index, the canonical spelling of an integer below
    2^32 - 1?  Those keys come first in the enumeration order of an
    object, by ascending value. *)
Definition array_index (k : string) : option N :=
  let (u, rest) := read_digits k in
  if (rest =? "")%string
     && negb (Decimal.uint_beq u Decimal.Nil)
     && Decimal.uint_beq (Decimal.unorm u) u
     && (N.of_uint u <? 4294967295)%N
  then Some (N.of_uint u) else None.

(** Does the key [k] come before the key [k'] in enumeration order
    whenever it was created? *)
Definition key_before (k k' : string) : bool :=
  match array_index k, array_index k' with
  | Some i, Some j => (i <? j)%N
  | Some _, None => true
  | None, _ => false
  end.

(** The place of a new key: an array index goes before the keys it
    comes before, any other key goes last. *)
Fixpoint insert_prop (props : list (string * JsVal)) (k : string) (v : JsVal)
  : list (string * JsVal) :=
  match props with
  | [] => [(k, v)]
  | (k', v') :: r =>
      if key_before k k' then (k, v) :: props
      else (k', v') :: insert_prop r k v
  end.

Fixpoint replace_prop (props : list (string * JsVal)) (k : string) (v : JsVal)
  : list (string * JsVal) :=
  match props with
  | [] => []
  | (k', v') :: r =>
      if (k' =? k)%string then (k', v) :: r else (k', v') :: replace_prop r k v
  end.

(** [CreateDataProperty]: a key that is there already keeps its place
    and takes the new value; a new key takes its place in the
    enumeration order. *)
Definition define_prop (props : list (string * JsVal)) (k : string) (v : JsVal)
  : list (string * JsVal) :=
  if existsb (String.eqb k) (map fst props) then replace_prop props k v
  else insert_prop props k v.

Definition object_of (members : list (string * JsVal)) : JsVal :=
  JObj (fold_left (fun props kv => define_prop props (fst kv) (snd kv)) members []).

(** Recursive descent; [fuel] bounds the nesting and the number of
    elements, and nothing is said of a text it does not suffice for. *)
Fixpoint parse_value (fuel : nat) (s : string) {struct fuel} : Parse JsVal :=
  match fuel with
  | O => Unmodelled
  | S f =>
      match skip_ws s with
      | EmptyString => Malformed
      | String c r =>
          if (c =? "n")%char then expect "null" JNull (String c r)
          else if (c =? "t")%char then expect "true" (JBool true) (String c r)
          else if (c =? "f")%char then expect "false" (JBool false) (String c r)
          else if (c =? DQUOTE)%char then
            and_then (parse_chars r) (fun str rest => Parsed (JStr str) rest)
          else if (c =? "[")%char then
            if closes "]" (skip_ws r) then Parsed (JArr []) (drop 1 (skip_ws r))
            else and_then (parse_elements f r) (fun l rest => Parsed (JArr l) rest)
          else if (c =? "{")%char then
            if closes "}" (skip_ws r) then Parsed (JObj []) (drop 1 (skip_ws r))
            else and_then (parse_members f r)
                          (fun m rest => Parsed (object_of m) rest)
          else parse_number (String c r)
      end
  end
with parse_elements (fuel : nat) (s : string) {struct fuel}
  : Parse (list JsVal) :=
  match fuel with
  | O => Unmodelled
  | S f =>
      and_then (parse_value f s) (fun v r =>
        if closes "," (skip_ws r) then
          and_then (parse_elements f (drop 1 (skip_ws r)))
                   (fun l rest => Parsed (v :: l) rest)
        else if closes "]" (skip_ws r) then Parsed [v] (drop 1 (skip_ws r))
        else Malformed)
  end
with parse_members (fuel : nat) (s : string) {struct fuel}
  : Parse (list (string * JsVal)) :=
  match fuel with
  | O => Unmodelled
  | S f =>
      if closes DQUOTE (skip_ws s) then
        and_then (parse_chars (drop 1 (skip_ws s))) (fun k r1 =>
          if closes ":" (skip_ws r1) then
            and_then (parse_value f (drop 1 (skip_ws r1))) (fun v r3 =>
              if closes "," (skip_ws r3) then
                and_then (parse_members f (drop 1 (skip_ws r3)))
                         (fun m rest => Parsed ((k, v) :: m) rest)
              else if closes "}" (skip_ws r3) then
                Parsed [(k, v)] (drop 1 (skip_ws r3))
              else Malformed)
          else Malformed)
      else Malformed
  end.

Definition syntax_error : JsError :=
  {| err_name := SyntaxError; err_message := "Unexpected token in JSON" |}.

(** [JSON.parse(text)]: the value it returns or the [SyntaxError] it
    throws; [None] for a text that is outside the model. *)
Definition JSON_parse_text (text : string) : option (Result JsVal) :=
  match parse_value (S (String.length text)) text with
  | Parsed v rest =>
      match skip_ws rest with
      | EmptyString => Some (Ok v)
      | _ => Some (Throw syntax_error)
      end
  | Malformed => Some (Throw syntax_error)
  | Unmodelled => None
  end.

(* ================================================================== *)
(** ** The export handler *)
(* ================================================================== *)

(** The file-system calls of the handler. *)
Inductive FsOp : Type :=
| EnsureDir (dir : string)
| WriteFile (full data : string)
| WriteWorkbook (full sheetName : string) (sheet : JsVal).

(** What the handler depends on and does not define: the directory of
    the script, the clock, [JSON.parse], the CSV and XLSX libraries, and
    whether a file-system call fails. *)
Record ExportEnv := {
  dirname : string;
  now_iso : string;
  JSON_parse : string -> Result JsVal;
  json2csv : list string -> JsVal -> Result string;
  json_to_sheet : JsVal -> Result JsVal;
  fs_fails : FsOp -> option JsError
}.

(** Computations that call the file system: the calls made so far are
    the state, and they stay made when an exception is thrown. *)
Definition IO (A : Type) : Type := list FsOp -> Result A * list FsOp.

Definition io_ret {A : Type} (a : A) : IO A := fun trace => (Ok a, trace).

Definition io_bind {A B : Type} (c : IO A) (k : A -> IO B) : IO B :=
  fun trace =>
    match c trace with
    | (Ok a, trace') => k a trace'
    | (Throw e, trace') => (Throw e, trace')
    end.

Definition io_lift {A : Type} (r : Result A) : IO A := fun trace => (r, trace).

Definition fs_call (env : ExportEnv) (op : FsOp) : IO unit :=
  fun trace =>
    (match fs_fails env op with
     | Some e => Throw e
     | None => Ok tt
     end, trace ++ [op]).

Notation "x <-- c ;;; k" := (io_bind c (fun x => k))
  (at level 61, c at next level, right associativity) : js_scope.

(** [path.join(a, b)] of two normalized segments. *)
Definition path_join (a b : string) : string := (a ++ "/" ++ b)%string.

(** [makeExportFilename(prefix, ext)]. *)
Definition makeExportFilename (env : ExportEnv) (prefix ext : string) : string :=
  (prefix ++ "-" ++ substring 0 10 (now_iso env) ++ "." ++ ext)%string.

Definition lower_char (c : ascii) : ascii :=
  let n := nat_of_ascii c in
  if (65 <=? n)%nat && (n <=? 90)%nat then ascii_of_nat (n + 32) else c.

(** [s.toLowerCase()] on the letters A to Z; the other characters stay
    (no character beyond them lowers to a letter of a format name). *)
Fixpoint toLowerCase (s : string) : string :=
  match s with
  | EmptyString => EmptyString
  | String c r => String (lower_char c) (toLowerCase r)
  end.

(** [(req.body.format || "csv").toLowerCase()]. *)
Definition lower_format (fmt : JsVal) : Result string :=
  match js_or fmt (JStr "csv") with
  | JStr s => Ok (toLowerCase s)
  | _ => Throw (not_a_function "(req.body.format || csv).toLowerCase")
  end.

(** The payload after [JSON.parse] of a string payload; [None] when the
    parse throws. *)
Definition decode_payload (env : ExportEnv) (payload : JsVal) : option JsVal :=
  match payload with
  | JStr s =>
      match JSON_parse env s with
      | Ok v => Some v
      | Throw _ => None
      end
  | _ => Some payload
  end.

(** [Array.isArray(payload) && payload.length !== 0]. *)
Definition nonempty_array (payload : JsVal) : bool :=
  isArray payload && negb (length (array_elems payload) =? 0)%nat.

Definition csv_fields : list string :=
  ["groupName"; "groupId"; "name"; "number"; "id"; "type"].

(** The body of [try] in the handler. *)
Definition export_files (env : ExportEnv) (payload : JsVal) (format : string)
  : IO Response :=
  let outDir := path_join (dirname env) "exports" in
  _ <-- fs_call env (EnsureDir outDir) ;;;
  if (format =? "csv")%string then
    csv <-- io_lift (json2csv env csv_fields payload) ;;;
    let fname := makeExportFilename env "whatsapp-export" "csv" in
    let full := path_join outDir fname in
    _ <-- fs_call env (WriteFile full csv) ;;;
    io_ret (Download full fname)
  else if (format =? "xlsx")%string then
    ws <-- io_lift (json_to_sheet env payload) ;;;
    let fname := makeExportFilename env "whatsapp-export" "xlsx" in
    let full := path_join outDir fname in
    _ <-- fs_call env (WriteWorkbook full "Export" ws) ;;;
    io_ret (Download full fname)
  else if (format =? "json")%string then
    let fname := makeExportFilename env "whatsapp-export" "json" in
    let full := path_join outDir fname in
    data <-- io_lift (match JSON_stringify payload with
                      | Some t => Ok t
                      | None => Throw {| err_name := TypeError;
                                         err_message := "The data argument must be of type string" |}
                      end) ;;;
    _ <-- fs_call env (WriteFile full data) ;;;
    io_ret (Download full fname)
  else io_ret (Send 400 "Unsupported format").

(** [app.post("/export", ...)]: the response (or the exception that
    leaves the handler) and the file-system calls made. *)
Definition export_handler (env : ExportEnv) (g : Globals) (body : JsVal)
  : Result Response * list FsOp :=
  if negb (isAuthenticated g) then (Ok (Send 403 "Not authenticated"), [])
  else
    match member body "payload" with
    | Throw err => (Throw err, [])
    | Ok payload =>
        if negb (truthy payload) then (Ok (Send 400 "No payload"), [])
        else
          match decode_payload env payload with
          | None => (Ok (Send 400 "Invalid payload JSON"), [])
          | Some payload =>
              if negb (nonempty_array payload)
              then (Ok (Send 400 "Payload must be non-empty array"), [])
              else
                match (fmt <- member body "format" ;; lower_format fmt) with
                | Throw err => (Throw err, [])
                | Ok format =>
                    match export_files env payload format [] with
                    | (Ok response, trace) => (Ok response, trace)
                    | (Throw _, trace) => (Ok (Send 500 "Export failed"), trace)
                    end
                end
          end
    end.

(* ================================================================== *)
(** ** The session events and the other routes *)
(* ================================================================== *)

(** [client.on("auth_failure", ...)]. *)
Definition on_auth_failure (g : Globals) : Globals :=
  {| qrCodeData := qrCodeData g; isAuthenticated := false;
     groupsCache := groupsCache g |}.

(** What the routes other than [/extract] and [/export] answer. *)
Inductive Page : Type :=
| PageRedirect (path : string)
| PageIndex (qr : JsVal)
| PageGroups (groups : list (JsVal * JsVal))
| PageSend (status : nat) (text : string)
| PageJson (status : nat) (body : JsVal).

(** [app.get("/", ...)]. *)
Definition home_handler (g : Globals) : Page :=
  if negb (isAuthenticated g) then PageIndex (qrCodeData g)
  else PageRedirect "/groups".

(** [{ id: g.id._serialized, name: g.name || "(no name)" }]. *)
Definition group_row (gr : JsVal) : Result (JsVal * JsVal) :=
  gid <- member gr "id" ;;
  serialized <- member gid "_serialized" ;;
  name <- member gr "name" ;;
  Ok (serialized, js_or name (JStr "(no name)")).

(** [app.get("/groups", ...)]; [getChats] is what [client.getChats()]
    settles to if the handler calls it. *)
Definition groups_handler (getChats : Result (list JsVal)) (g : Globals)
  : Result Page * Globals :=
  if negb (isAuthenticated g) then (Ok (PageRedirect "/"), g)
  else
    let g' := if (length (groupsCache g) =? 0)%nat
              then refreshGroups getChats g else g in
    match mapM group_row (groupsCache g') with
    | Ok groups => (Ok (PageGroups groups), g')
    | Throw err => (Throw err, g')
    end.

(** [app.get("/refresh-groups", ...)]. *)
Definition refresh_groups_handler (getChats : Result (list JsVal)) (g : Globals)
  : Page * Globals :=
  if negb (isAuthenticated g) then (PageRedirect "/", g)
  else (PageRedirect "/groups", refreshGroups getChats g).

(** [app.get("/status", ...)]. *)
Definition status_handler (g : Globals) : Page :=
  PageJson 200
    (JObj [("authenticated", JBool (isAuthenticated g));
           ("groups", JNum (Z.of_nat (length (groupsCache g))))]).

(** One element of [out] in [/debug-chats]. *)
Definition debug_row (c : JsVal) : Result JsVal :=
  cid <- member c "id" ;;
  id <- (if truthy cid then member cid "_serialized" else Ok JNull) ;;
  name <- member c "name" ;;
  isGroup <- member c "isGroup" ;;
  kind <- member c "kind" ;;
  unreadCount <- member c "unreadCount" ;;
  Ok (JObj [("id", id);
            ("name", js_or name JNull);
            ("isGroup", js_or isGroup (JBool false));
            ("kind", js_or kind JNull);
            ("unreadCount", js_or unreadCount (JNum 0))]).

(** [app.get("/debug-chats", ...)]. *)
Definition debug_chats_handler (getChats : Result (list JsVal)) (g : Globals)
  : Page :=
  if negb (isAuthenticated g) then PageSend 403 "Not authenticated"
  else
    match (chats <- getChats ;;
           out <- mapM debug_row chats ;;
           Ok (JObj [("ok", JBool true);
                     ("totalChats", JNum (Z.of_nat (length chats)));
                     ("sample", JArr (firstn 200 out))])) with
    | Ok body => PageJson 200 body
    | Throw e => PageJson 500 (JObj [("ok", JBool false);
                                     ("error", JStr (String_of_error e))])
    end.

(** What can assign the module-level variables: the four client events
    and the two routes that refresh the cache. *)
Inductive SessionEvent : Type :=
| EvQr (dataUrl : Result JsVal)
| EvReady (getChats : Result (list JsVal))
| EvAuthFailure
| EvDisconnected
| EvGroupsRoute (getChats : Result (list JsVal))
| EvRefreshRoute (getChats : Result (list JsVal)).

Definition session_step (g : Globals) (e : SessionEvent) : Globals :=
  match e with
  | EvQr dataUrl => on_qr dataUrl g
  | EvReady getChats => on_ready getChats g
  | EvAuthFailure => on_auth_failure g
  | EvDisconnected => on_disconnected g
  | EvGroupsRoute getChats => snd (groups_handler getChats g)
  | EvRefreshRoute getChats => snd (refresh_groups_handler getChats g)
  end.

(** The module-level variables as the script initializes them. *)
Definition initial_globals : Globals :=
  {| qrCodeData := JNull; isAuthenticated := false; groupsCache := [] |}.

Definition session_run (events : list SessionEvent) : Globals :=
  fold_left session_step events initial_globals.

(* ================================================================== *)
(** ** Notions the statements use *)
(* ================================================================== *)

(** Arrays, plain objects and collections: what [v && typeof v ===
    "object"] or [Array.isArray(v)] accepts. *)
Definition is_object (v : JsVal) : bool :=
  match v with
  | JArr _ | JObj _ | JColl _ _ => true
  | _ => false
  end.

(** No two positions of the list hold SameValueZero-equal values. *)
Definition distinct_values (l : list JsVal) : Prop :=
  ForallOrdPairs (fun a b => same_value_zero a b = false) l.

(** Two participant containers of one shape whose elements are the same
    up to order. *)
Inductive same_elements : JsVal -> JsVal -> Prop :=
| se_array l1 l2 :
    Permutation l1 l2 -> same_elements (JArr l1) (JArr l2)
| se_collection k1 k2 v1 v2 :
    Permutation k1 k2 -> Permutation v1 v2 ->
    same_elements (JColl k1 v1) (JColl k2 v2)
| se_object p1 p2 :
    Permutation p1 p2 -> same_elements (JObj p1) (JObj p2).

(** Two chats whose participant container, direct or nested in the
    group metadata, holds the same elements up to order. *)
Inductive reordered_chat : JsVal -> JsVal -> Prop :=
| rc_direct c1 c2 p1 p2 :
    member c1 "participants" = Ok p1 ->
    member c2 "participants" = Ok p2 ->
    same_elements p1 p2 ->
    reordered_chat c1 c2
| rc_nested c1 c2 p1 p2 gm1 gm2 l1 l2 :
    member c1 "participants" = Ok p1 ->
    member c2 "participants" = Ok p2 ->
    is_object p1 = false -> is_object p2 = false ->
    member c1 "groupMetadata" = Ok gm1 ->
    member c2 "groupMetadata" = Ok gm2 ->
    field gm1 "participants" = JArr l1 ->
    field gm2 "participants" = JArr l2 ->
    Permutation l1 l2 ->
    reordered_chat c1 c2.

(** What the promise of one id settles to. *)
Definition settled_entry (client : Client) (id : JsVal) : Resolved :=
  match contactPromise client id with
  | Ok v => v
  | Throw _ => unresolved_null
  end.

(** The row of entry [e] in the per-group arrays. *)
Definition entry_row_in (e : Entry) (ns : list NumberRow) (hs : list HiddenRow)
  : Prop :=
  match e_number e with
  | Some n => e_type e = TNumber /\
              In {| n_number := n; n_name := e_name e |} ns
  | None => e_type e = THidden /\
            In {| h_id := e_id e; h_name := e_name e |} hs
  end.

(** Entry [e] comes from a group of [gids] whose chat was fetched and
    whose result, at the same position of [rs], carries no error and
    holds the row of [e]. *)
Definition from_successful_group (client : Client) (gids : list JsVal)
  (rs : list GroupResult) (e : Entry) : Prop :=
  exists i gid chat g,
    nth_error gids i = Some gid /\
    getChatById client gid = Ok chat /\
    nth_error rs i = Some g /\
    g_error g = None /\
    g_groupId g = gid /\
    e_groupId e = gid /\
    entry_row_in e (g_numbers g) (g_hiddenIds g).

(** The three format names the dispatch knows. *)
Definition supported (format : string) : bool :=
  (format =? "csv")%string || (format =? "xlsx")%string || (format =? "json")%string.

(** Two characters that are the same letter in either case, or the
    same character; two strings that are the same up to the case of
    their letters. *)
Definition is_upper (c : ascii) : bool :=
  (65 <=? nat_of_ascii c)%nat && (nat_of_ascii c <=? 90)%nat.

Definition same_letter (c d : ascii) : bool :=
  (c =? d)%char ||
  (is_upper c && (nat_of_ascii d =? nat_of_ascii c + 32)%nat) ||
  (is_upper d && (nat_of_ascii c =? nat_of_ascii d + 32)%nat).

Fixpoint same_up_to_case (a b : string) : bool :=
  match a, b with
  | EmptyString, EmptyString => true
  | String c a', String d b' => same_letter c d && same_up_to_case a' b'
  | _, _ => false
  end.

(** The format field selects the formatter [name]: the field is absent
    (or falsy) and [name] is the default, or it is a string that
    spells [name] up to case. *)
Definition selects (fmt : JsVal) (name : string) : Prop :=
  (truthy fmt = false /\ name = "csv") \/
  (exists f, fmt = JStr f /\ same_up_to_case f name = true).

(** *** JSON texts *)

(** The payloads the round trip is stated for: null, booleans,
    strings, safe integers, and arrays and plain objects of those.  A
    plain object lists its keys in enumeration order, so they are
    distinct, the array indices come first in ascending order, and the
    other keys follow. *)
Fixpoint distinct_keys (ks : list string) : bool :=
  match ks with
  | [] => true
  | k :: r => negb (existsb (String.eqb k) r) && distinct_keys r
  end.

Fixpoint enumeration_order (ks : list string) : bool :=
  match ks with
  | [] => true
  | k :: r => forallb (fun k' => negb (key_before k' k)) r && enumeration_order r
  end.

Fixpoint plain_json (v : JsVal) : bool :=
  match v with
  | JNull | JBool _ | JStr _ => true
  | JNum n => safe_integer n
  | JArr l => forallb plain_json l
  | JObj props =>
      distinct_keys (map fst props) && enumeration_order (map fst props) &&
      forallb (fun kv => plain_json (snd kv)) props
  | JUndefined | JNaN | JInf _ | JColl _ _ => false
  end.

(** A character that continues a number: a digit, or the start of a
    fraction or of an exponent. *)
Definition continues_number (s : string) : bool :=
  match s with
  | EmptyString => false
  | String c _ =>
      match digit_of c with
      | Some _ => true
      | None => (c =? ".")%char || (c =? "e")%char || (c =? "E")%char
      end
  end.

(** Strings of blanks: the indentation. *)
Fixpoint blank (s : string) : bool :=
  match s with
  | EmptyString => true
  | String c r => is_ws c && blank r
  end.


(** The characters a value's text can start with. *)
Definition starts_value (c : ascii) : bool :=
  match digit_of c with
  | Some _ => true
  | None =>
      (c =? "n")%char || (c =? "t")%char || (c =? "f")%char ||
      (c =? DQUOTE)%char || (c =? "[")%char || (c =? "{")%char || (c =? "-")%char
  end.


(** The text of a JSON value, and the fuel its parse takes. *)
Definition text (indent : string) (v : JsVal) : string :=
  match SerializeJSONProperty indent v with
  | Some t => t
  | None => "null"
  end.


Definition member_text (indent : string) (kv : string * JsVal) : string :=
  (QuoteJSONString (fst kv) ++ ": " ++ text indent (snd kv))%string.


Fixpoint size (v : JsVal) : nat :=
  match v with
  | JArr l => S (fold_right (fun x n => S (size x + n)) 0%nat l)
  | JObj props => S (fold_right (fun kv n => S (size (snd kv) + n)) 0%nat props)
  | _ => 1%nat
  end.


(** A value's text, after blanks and before [rest], parses to the
    value and leaves [rest]. *)
Definition parses_back (v : JsVal) : Prop :=
  plain_json v = true ->
  forall fuel indent w rest,
    (size v <= fuel)%nat -> blank indent = true -> blank w = true ->
    continues_number rest = false ->
    parse_value fuel (w ++ text indent v ++ rest) = Parsed v rest.

(** *** The arrays of the classification loop *)

(** What holds of every entry the pipeline pushes: its id is a
    non-empty string; with the tag in the id it is a number entry whose
    number is the id without the tag and whose name is truthy or that
    number; without the tag it is a hidden entry with no number and a
    truthy name. *)
Definition pipeline_entry (e : Entry) : Prop :=
  exists s, e_id e = JStr s /\ s <> "" /\
    ((e_type e = TNumber /\ includes phone_tag s = true /\
      e_number e = Some (replace phone_tag "" s) /\
      (truthy (e_name e) = true \/ e_name e = JStr (replace phone_tag "" s)))
     \/
     (e_type e = THidden /\ includes phone_tag s = false /\
      e_number e = None /\ truthy (e_name e) = true)).

(** The entry the loop body pushes for [p], in closed form, and the
    rows of a list of entries. *)
Definition entry_of (gid gName : JsVal) (p : Resolved) : Entry :=
  let displayName := js_or (r_name p) JNull in
  match r_id p with
  | JStr s =>
      if includes phone_tag s
      then {| e_groupId := gid; e_groupName := gName;
              e_name := js_or displayName (JStr (replace phone_tag "" s));
              e_number := Some (replace phone_tag "" s);
              e_id := JStr s; e_type := TNumber |}
      else {| e_groupId := gid; e_groupName := gName;
              e_name := js_or displayName (JStr s);
              e_number := None; e_id := JStr s; e_type := THidden |}
  | id => {| e_groupId := gid; e_groupName := gName;
             e_name := js_or displayName id;
             e_number := None; e_id := id; e_type := THidden |}
  end.

Definition number_rows (es : list Entry) : list NumberRow :=
  flat_map (fun e => match e_number e with
                     | Some n => [{| n_number := n; n_name := e_name e |}]
                     | None => []
                     end) es.

Definition hidden_rows (es : list Entry) : list HiddenRow :=
  flat_map (fun e => match e_number e with
                     | Some _ => []
                     | None => [{| h_id := e_id e; h_name := e_name e |}]
                     end) es.

(** The path a file-system call writes to. *)
Definition written_path (op : FsOp) : option string :=
  match op with
  | EnsureDir _ => None
  | WriteFile full _ => Some full
  | WriteWorkbook full _ _ => Some full
  end.

(** A cached chat that [/groups] can list: it is an object, and so is
    its [id]. *)
Definition listable (c : JsVal) : bool :=
  negb (nullish c) && negb (nullish (field c "id")).

(** The row [/debug-chats] builds for a chat that is an object. *)
Definition debug_row_of (c : JsVal) : JsVal :=
  JObj [("id", if truthy (field c "id")
               then field (field c "id") "_serialized" else JNull);
        ("name", js_or (field c "name") JNull);
        ("isGroup", js_or (field c "isGroup") (JBool false));
        ("kind", js_or (field c "kind") JNull);
        ("unreadCount", js_or (field c "unreadCount") (JNum 0))].

Definition is_ready (e : SessionEvent) : bool :=
  match e with
  | EvReady _ => true
  | _ => false
  end.

(** *** Concrete inputs the examples run on *)

(** [JSON.parse] for the examples, whose texts are all within the
    model. *)
Definition JSON_parse_example (text : string) : Result JsVal :=
  match JSON_parse_text text with
  | Some r => r
  | None => Throw syntax_error
  end.

(** A disk that takes every call, and one that refuses them all. *)
Definition env_witness : ExportEnv :=
  {| dirname := "/app";
     now_iso := "2025-01-31T10:20:30.000Z";
     JSON_parse := JSON_parse_example;
     json2csv := fun _ _ => Ok "groupName,groupId,name,number,id,type";
     json_to_sheet := fun payload => Ok payload;
     fs_fails := fun _ => None |}.

Definition read_only_disk : JsError :=
  {| err_name := Error; err_message := "EROFS: read-only file system" |}.

Definition env_read_only : ExportEnv :=
  {| dirname := "/app";
     now_iso := "2025-01-31T10:20:30.000Z";
     JSON_parse := JSON_parse_example;
     json2csv := fun _ _ => Ok "groupName,groupId,name,number,id,type";
     json_to_sheet := fun payload => Ok payload;
     fs_fails := fun _ => Some read_only_disk |}.

Definition authenticated : Globals :=
  {| qrCodeData := JNull; isAuthenticated := true; groupsCache := [] |}.

Definition payload_witness : JsVal :=
  JArr [JObj [("groupId", JStr "G2"); ("groupName", JStr "Family");
              ("name", JStr "Alice"); ("number", JStr "1234567890");
              ("id", JStr "1234567890@c.us"); ("type", JStr "number")]].

Definition export_body (format : string) : JsVal :=
  JObj [("payload", payload_witness); ("format", JStr format)].



Definition chat_witness : JsVal :=
  JObj [("name", JStr "Family");
        ("participants",
         JArr [JObj [("id", JObj [("_serialized", JStr "1234567890@c.us")])];
               JStr "ABCXYZ@lid";
               JNull;
               JStr "ABCXYZ@lid"])].

Definition chat_reordered_witness : JsVal :=
  JObj [("name", JStr "Family");
        ("participants",
         JArr [JStr "ABCXYZ@lid";
               JObj [("id", JObj [("_serialized", JStr "1234567890@c.us")])];
               JStr "ABCXYZ@lid";
               JNull])].

Definition not_found : JsError :=
  {| err_name := Error; err_message := "not found" |}.

(** A client that knows the chat ["G2"] and the contact
    ["1234567890@c.us"] only. *)
Definition client_witness : Client :=
  {| getChatById := fun gid =>
       match gid with
       | JStr "G2" => Ok chat_witness
       | _ => Throw not_found
       end;
     getContactById := fun id =>
       match id with
       | JStr "1234567890@c.us" => Ok (JObj [("pushname", JStr "Alice")])
       | _ => Throw not_found
       end |}.

(* ================================================================== *)
(** ** Proof automation *)
(* ================================================================== *)

(** Case analysis on the scrutinee of the goal's first [match] or [if]. *)
Ltac case_scrutinee :=
  match goal with
  | |- context [match ?x with _ => _ end] =>
      lazymatch x with
      | context [match _ with _ => _ end] => fail
      | _ => destruct x eqn:?
      end
  end.

(* ================================================================== *)
(** ** Theorems *)
(* ================================================================== *)

Lemma getParticipantId_normalize (part : JsVal) :
  getParticipantId part = Ok (normalize_nonempty part).
Proof.
  unfold getParticipantId, normalize_nonempty.
  destruct part as [| |b|n| |neg|s|l|props|ks vs]; simpl; try reflexivity.
  - destruct b; reflexivity.
  - destruct (n =? 0)%Z; reflexivity.
  - destruct (s =? "")%string; reflexivity.
  - destruct (own_prop props "id") as [| |b|n| |neg|s|l|ps|ks vs] eqn:Eid; simpl;
      repeat (first [reflexivity
                    | case_scrutinee; simpl in *;
                      rewrite ?andb_false_r, ?andb_true_r in *; try congruence]).
Qed.

Lemma getParticipantId_returns (part : JsVal) :
  exists v, getParticipantId part = Ok v.
Proof. eexists. apply getParticipantId_normalize. Qed.

Lemma mapM_getParticipantId (l : list JsVal) :
  mapM getParticipantId l = Ok (map normalize_nonempty l).
Proof.
  induction l as [|x r IH]; simpl; [reflexivity|].
  rewrite getParticipantId_normalize, IH. reflexivity.
Qed.

(** *** The [Set] *)

Lemma same_value_zero_eq (a b : JsVal) :
  same_value_zero a b = true -> a = b.
Proof.
  destruct a, b; simpl; try discriminate; intros H; try reflexivity.
  - apply Bool.eqb_prop in H. now subst.
  - apply Z.eqb_eq in H. now subst.
  - apply Bool.eqb_prop in H. now subst.
  - apply String.eqb_eq in H. now subst.
Qed.

Lemma same_value_zero_sym (a b : JsVal) :
  same_value_zero a b = same_value_zero b a.
Proof.
  destruct a, b; simpl; try reflexivity.
  - destruct b, b0; reflexivity.
  - apply Z.eqb_sym.
  - destruct negative, negative0; reflexivity.
  - apply String.eqb_sym.
Qed.

Lemma set_add_all_In (l seen : list JsVal) (v : JsVal) :
  In v (set_add_all seen l) <-> In v seen \/ In v l.
Proof.
  revert seen. induction l as [|x r IH]; intros seen; simpl.
  - tauto.
  - destruct (existsb (same_value_zero x) seen) eqn:E.
    + rewrite IH. apply existsb_exists in E. destruct E as [y [Hy Hxy]].
      apply same_value_zero_eq in Hxy. subst y.
      split; [tauto|]. intros [H|[H|H]]; subst; tauto.
    + rewrite IH, in_app_iff. simpl. tauto.
Qed.

Lemma distinct_values_snoc (seen : list JsVal) (x : JsVal) :
  distinct_values seen ->
  existsb (same_value_zero x) seen = false ->
  distinct_values (seen ++ [x]).
Proof.
  unfold distinct_values. intros Hd Hx.
  induction Hd as [|a l Ha Hl IH]; simpl.
  - constructor; [constructor | constructor].
  - simpl in Hx. apply orb_false_elim in Hx. destruct Hx as [Hxa Hxl].
    constructor.
    + apply Forall_app. split; [exact Ha|].
      constructor; [|constructor].
      rewrite same_value_zero_sym. exact Hxa.
    + apply IH. exact Hxl.
Qed.

Lemma set_add_all_distinct (l seen : list JsVal) :
  distinct_values seen -> distinct_values (set_add_all seen l).
Proof.
  revert seen. induction l as [|x r IH]; intros seen Hd; simpl.
  - exact Hd.
  - destruct (existsb (same_value_zero x) seen) eqn:E.
    + apply IH. exact Hd.
    + apply IH. apply distinct_values_snoc; assumption.
Qed.

Lemma unique_In (l : list JsVal) (v : JsVal) : In v (unique l) <-> In v l.
Proof. unfold unique. rewrite set_add_all_In. simpl. tauto. Qed.

Lemma unique_distinct (l : list JsVal) : distinct_values (unique l).
Proof. apply set_add_all_distinct. constructor. Qed.

Lemma set_add_all_truthy (l seen : list JsVal) :
  Forall (fun v => truthy v = true) seen ->
  Forall (fun v => truthy v = true) l ->
  Forall (fun v => truthy v = true) (set_add_all seen l).
Proof.
  intros Hs Hl. apply Forall_forall. intros v Hv.
  apply set_add_all_In in Hv. rewrite Forall_forall in Hs, Hl.
  destruct Hv; auto.
Qed.

Lemma filter_truthy_all (l : list JsVal) :
  Forall (fun v => truthy v = true) (filter truthy l).
Proof.
  apply Forall_forall. intros v Hv. apply filter_In in Hv. tauto.
Qed.

Lemma filter_falsy_nil (l : list JsVal) :
  Forall (fun v => truthy v = false) l -> filter truthy l = [].
Proof.
  induction 1 as [|x r Hx _ IH]; simpl; [reflexivity|].
  rewrite Hx. exact IH.
Qed.

(** *** The collector, shape by shape *)

(** The candidates the collector takes from a participant container
    [p] and the group metadata [gm], before the filter and the set. *)
Lemma collect_array (chat : JsVal) (l : list JsVal) :
  member chat "participants" = Ok (JArr l) ->
  collect chat = Ok (unique (filter truthy (map normalize_nonempty l))).
Proof.
  intros H. unfold collect. rewrite H. simpl.
  rewrite mapM_getParticipantId. reflexivity.
Qed.

Lemma collect_keys (chat : JsVal) (ks vs : list JsVal) :
  member chat "participants" = Ok (JColl ks vs) -> ks <> [] ->
  collect chat = Ok (unique (filter truthy ks)).
Proof.
  intros H Hne. unfold collect. rewrite H. simpl.
  destruct ks as [|k ks']; [congruence|]. reflexivity.
Qed.

Lemma collect_values (chat : JsVal) (vs : list JsVal) :
  member chat "participants" = Ok (JColl [] vs) ->
  collect chat = Ok (unique (filter truthy (map normalize_nonempty vs))).
Proof.
  intros H. unfold collect. rewrite H. simpl.
  rewrite mapM_getParticipantId. reflexivity.
Qed.

Lemma collect_object (chat : JsVal) (props : list (string * JsVal)) :
  member chat "participants" = Ok (JObj props) ->
  collect chat = Ok (unique (filter truthy (map normalize_nonempty (map snd props)))).
Proof.
  intros H. unfold collect. rewrite H. simpl.
  rewrite mapM_getParticipantId. reflexivity.
Qed.

Lemma member_field_array (gm : JsVal) (l : list JsVal) :
  field gm "participants" = JArr l -> member gm "participants" = Ok (JArr l).
Proof.
  destruct gm; simpl; try discriminate. intros ->. reflexivity.
Qed.

Lemma field_array_truthy (gm : JsVal) (l : list JsVal) :
  field gm "participants" = JArr l -> truthy gm = true.
Proof. destruct gm; simpl; try discriminate. reflexivity. Qed.

Lemma not_object_test (p : JsVal) :
  is_object p = false ->
  isArray p = false /\ truthy p && (typeof p =? "object")%string = false.
Proof.
  destruct p; simpl; try discriminate; intros _; split; try reflexivity.
  all: apply andb_false_r.
Qed.

Lemma collect_nested (chat p gm : JsVal) (l : list JsVal) :
  member chat "participants" = Ok p -> is_object p = false ->
  member chat "groupMetadata" = Ok gm ->
  field gm "participants" = JArr l ->
  collect chat = Ok (unique (filter truthy (map normalize_nonempty l))).
Proof.
  intros Hp Hno Hgm Hl. unfold collect. rewrite Hp. simpl.
  destruct (not_object_test p Hno) as [-> ->].
  rewrite Hgm. simpl. rewrite (field_array_truthy gm l Hl).
  rewrite (member_field_array gm l Hl). simpl.
  rewrite mapM_getParticipantId. reflexivity.
Qed.

Lemma member_not_array (gm : JsVal) :
  isArray (field gm "participants") = false ->
  truthy gm = true ->
  exists ps, member gm "participants" = Ok ps /\ isArray ps = false.
Proof.
  destruct gm; simpl; try discriminate; intros H _; eauto.
Qed.

Lemma collect_no_shape (chat p gm : JsVal) :
  member chat "participants" = Ok p -> is_object p = false ->
  member chat "groupMetadata" = Ok gm ->
  isArray (field gm "participants") = false ->
  collect chat = Ok [].
Proof.
  intros Hp Hno Hgm Hl. unfold collect. rewrite Hp. simpl.
  destruct (not_object_test p Hno) as [-> ->].
  rewrite Hgm. simpl. destruct (truthy gm) eqn:Et.
  - destruct (member_not_array gm Hl Et) as [ps [-> Hps]]. simpl.
    rewrite Hps. reflexivity.
  - reflexivity.
Qed.

Lemma member_groupMetadata (chat p : JsVal) :
  member chat "participants" = Ok p -> exists gm, member chat "groupMetadata" = Ok gm.
Proof. destruct chat; simpl; try discriminate; eauto. Qed.

Lemma collect_returns (chat p : JsVal) :
  member chat "participants" = Ok p -> exists ids, collect chat = Ok ids.
Proof.
  intros Hp. destruct (member_groupMetadata chat p Hp) as [gm Hgm].
  destruct p as [| |b|n| |neg|s|l|props|ks vs].
  8: { eexists. apply collect_array. exact Hp. }
  8: { eexists. apply collect_object. exact Hp. }
  8: { destruct ks as [|k ks'].
       - eexists. apply collect_values. exact Hp.
       - eexists. apply (collect_keys chat (k :: ks') vs Hp). discriminate. }
  all: destruct (isArray (field gm "participants")) eqn:Ea;
    [ destruct (field gm "participants") as [| | | | | | |l| |] eqn:El; try discriminate;
      eexists; eapply collect_nested; eauto
    | eexists; eapply collect_no_shape; eauto ].
Qed.

Lemma existsb_perm (f : JsVal -> bool) (l1 l2 : list JsVal) :
  Permutation l1 l2 -> existsb f l1 = existsb f l2.
Proof.
  induction 1 as [|x l l' _ IH|x y l|l l' l'' _ IH1 _ IH2]; simpl.
  - reflexivity.
  - now rewrite IH.
  - destruct (f x), (f y); reflexivity.
  - congruence.
Qed.

Lemma set_add_all_perm_seen (l seen1 seen2 : list JsVal) :
  Permutation seen1 seen2 ->
  Permutation (set_add_all seen1 l) (set_add_all seen2 l).
Proof.
  revert seen1 seen2. induction l as [|x r IH]; intros seen1 seen2 Hs; simpl.
  - exact Hs.
  - rewrite (existsb_perm _ _ _ Hs).
    destruct (existsb (same_value_zero x) seen2).
    + apply IH. exact Hs.
    + apply IH. apply Permutation_app_tail. exact Hs.
Qed.

Lemma existsb_snoc (f : JsVal -> bool) (l : list JsVal) (x : JsVal) :
  existsb f (l ++ [x]) = existsb f l || f x.
Proof. rewrite existsb_app. simpl. now rewrite orb_false_r. Qed.

Lemma set_add_all_perm (l1 l2 : list JsVal) :
  Permutation l1 l2 ->
  forall seen1 seen2, Permutation seen1 seen2 ->
  Permutation (set_add_all seen1 l1) (set_add_all seen2 l2).
Proof.
  induction 1 as [|x l l' _ IH|x y l|l l' l'' _ IH1 _ IH2]; intros seen1 seen2 Hs.
  - exact Hs.
  - simpl. rewrite (existsb_perm _ _ _ Hs).
    destruct (existsb (same_value_zero x) seen2).
    + apply IH. exact Hs.
    + apply IH. apply Permutation_app_tail. exact Hs.
  - simpl.
    pose proof (existsb_perm (same_value_zero x) _ _ Hs) as Px.
    pose proof (existsb_perm (same_value_zero y) _ _ Hs) as Py.
    rewrite !existsb_snoc, <- Px, <- Py.
    destruct (existsb (same_value_zero x) seen1) eqn:Ex;
      destruct (existsb (same_value_zero y) seen1) eqn:Ey;
      rewrite ?existsb_snoc, <- ?Px, <- ?Py, ?Ex, ?Ey; simpl.
    + apply set_add_all_perm_seen. exact Hs.
    + apply set_add_all_perm_seen. apply Permutation_app_tail. exact Hs.
    + apply set_add_all_perm_seen. apply Permutation_app_tail. exact Hs.
    + rewrite (same_value_zero_sym x y).
      destruct (same_value_zero y x) eqn:Exy.
      * apply same_value_zero_eq in Exy. subst y.
        apply set_add_all_perm_seen. apply Permutation_app_tail. exact Hs.
      * apply set_add_all_perm_seen.
        rewrite <- !app_assoc. simpl.
        apply Permutation_app; [exact Hs | constructor].
  - eapply Permutation_trans.
    + apply IH1. exact Hs.
    + apply IH2. apply Permutation_refl.
Qed.

Lemma filter_perm (f : JsVal -> bool) (l1 l2 : list JsVal) :
  Permutation l1 l2 -> Permutation (filter f l1) (filter f l2).
Proof.
  induction 1 as [|x l l' _ IH|x y l|l l' l'' _ IH1 _ IH2]; simpl.
  - constructor.
  - destruct (f x); [constructor|]; exact IH.
  - destruct (f x), (f y); try apply Permutation_refl. constructor.
  - eapply Permutation_trans; eassumption.
Qed.

Lemma unique_filter_perm (l1 l2 : list JsVal) :
  Permutation l1 l2 ->
  Permutation (unique (filter truthy l1)) (unique (filter truthy l2)).
Proof.
  intros H. unfold unique. apply set_add_all_perm.
  - apply filter_perm. exact H.
  - constructor.
Qed.

(** *** C8, the normalizer *)

(** C8, as stated, fails: an object whose top-level [_serialized] field
    is the empty string has a string in that field, and
    [getParticipantId] returns [null], not the field. *)
Lemma getParticipantId_empty_serialized :
  getParticipantId (JObj [("_serialized", JStr "")]) = Ok JNull /\
  normalize_spec (JObj [("_serialized", JStr "")]) = JStr "" /\
  getParticipantId (JObj [("_serialized", JStr "")])
    <> Ok (normalize_spec (JObj [("_serialized", JStr "")])).
Proof. repeat split. discriminate. Qed.

(** C8, amended: for every raw participant value [getParticipantId]
    returns, never throwing, in priority order: null for a falsy input,
    the input itself when it is a string, the nested [id._serialized]
    when that is a string, the top-level [_serialized] when that is a
    non-empty string, and null otherwise. *)
Theorem getParticipantId_priority_order (part : JsVal) :
  (truthy part = false -> getParticipantId part = Ok JNull) /\
  (forall s, part = JStr s -> truthy part = true ->
     getParticipantId part = Ok (JStr s)) /\
  (forall s, truthy part = true -> typeof part <> "string" ->
     field (field part "id") "_serialized" = JStr s ->
     getParticipantId part = Ok (JStr s)) /\
  (forall s, truthy part = true -> typeof part <> "string" ->
     typeof (field (field part "id") "_serialized") <> "string" ->
     field part "_serialized" = JStr s -> s <> "" ->
     getParticipantId part = Ok (JStr s)) /\
  (truthy part = true -> typeof part <> "string" ->
     typeof (field (field part "id") "_serialized") <> "string" ->
     typeof (field part "_serialized") <> "string" \/
       field part "_serialized" = JStr "" ->
     getParticipantId part = Ok JNull) /\
  getParticipantId part = Ok (normalize_nonempty part).
Proof.
  rewrite getParticipantId_normalize. unfold normalize_nonempty.
  repeat split.
  - intros ->. reflexivity.
  - intros s -> ->. reflexivity.
  - intros s -> Hs Hn. cbn [negb].
    destruct part; try (rewrite Hn; reflexivity). exfalso. apply Hs. reflexivity.
  - intros s -> Hs Hn Ht Hne. cbn [negb]. apply String.eqb_neq in Hne.
    destruct part; try (exfalso; apply Hs; reflexivity);
      (destruct (field (field _ "id") "_serialized");
       try (exfalso; apply Hn; reflexivity); rewrite Ht, Hne; reflexivity).
  - intros -> Hs Hn Ht. cbn [negb].
    destruct part; try (exfalso; apply Hs; reflexivity);
      (destruct (field (field _ "id") "_serialized");
       try (exfalso; apply Hn; reflexivity);
       destruct Ht as [Ht|Ht];
       first [ rewrite Ht; reflexivity
             | destruct (field _ "_serialized"); try reflexivity;
               exfalso; apply Ht; reflexivity ]).
Qed.

Lemma getParticipantId_priority_order_witness :
  getParticipantId (JObj [("_serialized", JStr "ABCXYZ@lid")]) = Ok (JStr "ABCXYZ@lid") /\
  getParticipantId (JObj [("id", JObj [("_serialized", JStr "1234567890@c.us")])]) =
    Ok (JStr "1234567890@c.us") /\
  getParticipantId (JNum 0) = Ok JNull.
Proof.
  split; [|split].
  - refine (proj1 (proj2 (proj2 (proj2
      (getParticipantId_priority_order (JObj [("_serialized", JStr "ABCXYZ@lid")])))))
      "ABCXYZ@lid" _ _ _ _ _); try reflexivity; discriminate.
  - refine (proj1 (proj2 (proj2
      (getParticipantId_priority_order
         (JObj [("id", JObj [("_serialized", JStr "1234567890@c.us")])]))))
      "1234567890@c.us" _ _ _); try reflexivity; discriminate.
  - exact (proj1 (getParticipantId_priority_order (JNum 0)) eq_refl).
Defined.

(** *** C4, the collector's fallback order *)

(** C4: for a chat whose [participants] and [groupMetadata] read as [p]
    and [gm], the collector never throws and takes its candidates
    (1) from an array through the normalizer, (2) from a collection's
    keys when there are any, else from its values through the
    normalizer, (3) from a plain object's values through the normalizer,
    (4) else from the array nested in the group metadata, through the
    normalizer; the falsy candidates are dropped and the rest
    deduplicated; with no shape matching, or only falsy candidates, the
    result is empty. *)
Theorem collect_fallback_order (chat p gm : JsVal)
  (Hp : member chat "participants" = Ok p)
  (Hgm : member chat "groupMetadata" = Ok gm) :
  (forall l, p = JArr l ->
     exists cands, mapM getParticipantId l = Ok cands /\
                   collect chat = Ok (unique (filter truthy cands))) /\
  (forall ks vs, p = JColl ks vs -> ks <> [] ->
     collect chat = Ok (unique (filter truthy ks))) /\
  (forall vs, p = JColl [] vs ->
     exists cands, mapM getParticipantId vs = Ok cands /\
                   collect chat = Ok (unique (filter truthy cands))) /\
  (forall props, p = JObj props ->
     exists cands, mapM getParticipantId (map snd props) = Ok cands /\
                   collect chat = Ok (unique (filter truthy cands))) /\
  (forall l, is_object p = false -> field gm "participants" = JArr l ->
     exists cands, mapM getParticipantId l = Ok cands /\
                   collect chat = Ok (unique (filter truthy cands))) /\
  (is_object p = false -> isArray (field gm "participants") = false ->
     collect chat = Ok []) /\
  (forall cands, Forall (fun v => truthy v = false) cands ->
     unique (filter truthy cands) = []) /\
  (exists ids, collect chat = Ok ids).
Proof.
  repeat split.
  - intros l ->. eexists. split; [apply mapM_getParticipantId|].
    apply collect_array. exact Hp.
  - intros ks vs -> Hne. apply (collect_keys chat ks vs Hp Hne).
  - intros vs ->. eexists. split; [apply mapM_getParticipantId|].
    apply collect_values. exact Hp.
  - intros props ->. eexists. split; [apply mapM_getParticipantId|].
    apply collect_object. exact Hp.
  - intros l Hno Hl. eexists. split; [apply mapM_getParticipantId|].
    eapply collect_nested; eauto.
  - intros Hno Hl. eapply collect_no_shape; eauto.
  - intros cands Hc. rewrite (filter_falsy_nil cands Hc). reflexivity.
  - eapply collect_returns. exact Hp.
Qed.

Lemma collect_fallback_order_witness :
  collect chat_witness = Ok [JStr "1234567890@c.us"; JStr "ABCXYZ@lid"] /\
  exists ids, collect chat_witness = Ok ids.
Proof.
  split; [reflexivity|].
  apply (collect_fallback_order chat_witness
           (JArr [JObj [("id", JObj [("_serialized", JStr "1234567890@c.us")])];
                  JStr "ABCXYZ@lid"; JNull; JStr "ABCXYZ@lid"])
           JUndefined); reflexivity.
Defined.

(** *** C6, order independence and set semantics *)

Lemma map_snd_perm (p1 p2 : list (string * JsVal)) :
  Permutation p1 p2 -> Permutation (map snd p1) (map snd p2).
Proof. apply Permutation_map. Qed.

(** C6: two chats whose participant containers hold the same elements
    in different orders are collected to the same set of ids (the two
    results are permutations of each other, so they have the same
    members), and neither result holds a value twice. *)
Theorem collect_order_independent (chat1 chat2 : JsVal)
  (H : reordered_chat chat1 chat2) :
  exists ids1 ids2,
    collect chat1 = Ok ids1 /\ collect chat2 = Ok ids2 /\
    Permutation ids1 ids2 /\
    (forall v, In v ids1 <-> In v ids2) /\
    distinct_values ids1 /\ distinct_values ids2.
Proof.
  assert (Hgoal : exists c1 c2,
            collect chat1 = Ok (unique (filter truthy c1)) /\
            collect chat2 = Ok (unique (filter truthy c2)) /\
            Permutation c1 c2).
  { destruct H as [c1 c2 p1 p2 H1 H2 Hs | c1 c2 p1 p2 gm1 gm2 l1 l2 H1 H2 N1 N2 G1 G2 F1 F2 HP].
    - destruct Hs as [l1 l2 HP | k1 k2 v1 v2 HK HV | o1 o2 HP].
      + exists (map normalize_nonempty l1), (map normalize_nonempty l2).
        repeat split; try (apply collect_array; assumption).
        apply Permutation_map. exact HP.
      + destruct k1 as [|a k1'].
        * apply Permutation_nil in HK. subst k2.
          exists (map normalize_nonempty v1), (map normalize_nonempty v2).
          repeat split; try (apply collect_values; assumption).
          apply Permutation_map. exact HV.
        * exists (a :: k1'), k2.
          repeat split.
          -- apply (collect_keys c1 (a :: k1') v1 H1). discriminate.
          -- apply (collect_keys c2 k2 v2 H2). intros ->.
             apply Permutation_sym, Permutation_nil in HK. discriminate.
          -- exact HK.
      + exists (map normalize_nonempty (map snd o1)), (map normalize_nonempty (map snd o2)).
        repeat split; try (apply collect_object; assumption).
        apply Permutation_map, map_snd_perm. exact HP.
    - exists (map normalize_nonempty l1), (map normalize_nonempty l2).
      repeat split.
      + eapply collect_nested; eauto.
      + eapply collect_nested; eauto.
      + apply Permutation_map. exact HP. }
  destruct Hgoal as [c1 [c2 [E1 [E2 HP]]]].
  exists (unique (filter truthy c1)), (unique (filter truthy c2)).
  pose proof (unique_filter_perm c1 c2 HP) as HU.
  repeat split; try assumption; try apply unique_distinct.
  - intros Hv. eapply Permutation_in; eauto.
  - intros Hv. eapply Permutation_in; [apply Permutation_sym|]; eauto.
Qed.

Lemma collect_order_independent_witness :
  reordered_chat chat_witness chat_reordered_witness /\
  exists ids1 ids2,
    collect chat_witness = Ok ids1 /\ collect chat_reordered_witness = Ok ids2 /\
    Permutation ids1 ids2 /\
    (forall v, In v ids1 <-> In v ids2) /\
    distinct_values ids1 /\ distinct_values ids2.
Proof.
  assert (H : reordered_chat chat_witness chat_reordered_witness).
  { eapply rc_direct; [reflexivity | reflexivity |].
    apply se_array.
    eapply perm_trans; [apply perm_swap|].
    apply perm_skip, perm_skip, perm_swap. }
  split; [exact H|].
  exact (collect_order_independent chat_witness chat_reordered_witness H).
Defined.

(** *** Strings: what [includes] and [replace] compute *)

Lemma prefix_split (pat s : string) :
  prefix pat s = true -> s = (pat ++ drop (String.length pat) s)%string.
Proof.
  revert s. induction pat as [|c pat IH]; intros s H; simpl.
  - reflexivity.
  - destruct s as [|d s]; simpl in H; [discriminate|].
    destruct (ascii_dec c d) as [->|]; [|discriminate].
    simpl. f_equal. apply IH. exact H.
Qed.

Lemma prefix_app (pat post : string) : prefix pat (pat ++ post)%string = true.
Proof.
  induction pat as [|c pat IH]; simpl.
  - destruct post; reflexivity.
  - destruct (ascii_dec c c); [exact IH | congruence].
Qed.

Lemma includes_unfold (pat s : string) :
  includes pat s =
  prefix pat s || match s with
                  | EmptyString => false
                  | String _ r => includes pat r
                  end.
Proof. destruct s; reflexivity. Qed.

Lemma replace_unfold (pat rep s : string) :
  replace pat rep s =
  if prefix pat s then (rep ++ drop (String.length pat) s)%string
  else match s with
       | EmptyString => s
       | String c r => String c (replace pat rep r)
       end.
Proof. destruct s; reflexivity. Qed.

Lemma includes_app (pat pre post : string) :
  includes pat (pre ++ pat ++ post)%string = true.
Proof.
  induction pre as [|c pre IH].
  - cbn [append]. rewrite includes_unfold, prefix_app. reflexivity.
  - cbn [append]. rewrite includes_unfold, IH. apply orb_true_r.
Qed.

(** [replace pat "" s] removes the first occurrence of [pat]: the
    prefix [pre] before it has no position where [pat] starts. *)
Lemma replace_first_occurrence (pat s : string) :
  includes pat s = true ->
  exists pre post,
    s = (pre ++ pat ++ post)%string /\
    replace pat "" s = (pre ++ post)%string /\
    forall k, (k < String.length pre)%nat -> prefix pat (drop k s) = false.
Proof.
  induction s as [|c s IH]; intros H; rewrite includes_unfold in H;
    rewrite replace_unfold.
  - rewrite orb_false_r in H. rewrite H.
    exists "", (drop (String.length pat) ""). cbn [append]. repeat split.
    + apply prefix_split. exact H.
    + intros k Hk. inversion Hk.
  - destruct (prefix pat (String c s)) eqn:Ep.
    + exists "", (drop (String.length pat) (String c s)). cbn [append]. repeat split.
      * apply prefix_split. exact Ep.
      * intros k Hk. inversion Hk.
    + cbn [orb] in H. destruct (IH H) as [pre [post [E1 [E2 E3]]]].
      exists (String c pre), post. cbn [append]. repeat split.
      * now rewrite <- E1.
      * now rewrite E2.
      * intros [|k] Hk; cbn [drop]; [exact Ep|]. apply E3.
        cbn [String.length] in Hk. lia.
Qed.

(** *** C3, the classifier *)

Lemma js_or_display_name (name fallback : JsVal) :
  js_or (js_or name JNull) fallback =
  if nullish (js_or name JNull) then fallback else js_or name JNull.
Proof.
  unfold js_or. destruct (truthy name) eqn:Et; [|reflexivity].
  rewrite Et. destruct name; simpl in Et; try discriminate; reflexivity.
Qed.

(** C3: a resolved participant whose id is the string [id] is
    classified, without an exception, as follows.  When [id] contains
    the tag ["@c.us"] the entry pushed has type ["number"], its number
    is [id] with the first occurrence of the tag removed, and its name
    is the display name when there is one, else that number.
    Otherwise the entry has type ["hidden"], no number, and its name is
    the display name when there is one, else [id].  So the number is
    present exactly when the type is ["number"]. *)
Theorem classify_decision_rule (gid gName : JsVal) (id : string)
  (name : JsVal) (ok : bool) (acc : Acc) :
  let p := {| r_id := JStr id; r_name := name; r_ok := ok |} in
  let displayName := js_or name JNull in
  let stripped := replace "@c.us" "" id in
  let entry :=
    if includes "@c.us" id
    then {| e_groupId := gid; e_groupName := gName;
            e_name := if nullish displayName then JStr stripped else displayName;
            e_number := Some stripped; e_id := JStr id; e_type := TNumber |}
    else {| e_groupId := gid; e_groupName := gName;
            e_name := if nullish displayName then JStr id else displayName;
            e_number := None; e_id := JStr id; e_type := THidden |} in
  (exists acc', classifyStep gid gName p acc = Ok acc' /\
                allEntries acc' = allEntries acc ++ [entry]) /\
  (includes "@c.us" id = true <-> exists pre post, id = (pre ++ "@c.us" ++ post)%string) /\
  (includes "@c.us" id = true ->
   exists pre post,
     id = (pre ++ "@c.us" ++ post)%string /\ stripped = (pre ++ post)%string /\
     forall k, (k < String.length pre)%nat -> prefix "@c.us" (drop k id) = false) /\
  (e_number entry <> None <-> type_string (e_type entry) = "number").
Proof.
  intros p displayName stripped entry.
  split; [|split; [|split]].
  - unfold classifyStep, p, entry, displayName, stripped.
    cbn [r_id r_name call_includes bind call_replace]. unfold phone_tag.
    destruct (includes "@c.us" id); cbn [bind call_replace];
      rewrite js_or_display_name; eexists; split; reflexivity.
  - split.
    + intros H. destruct (replace_first_occurrence _ _ H) as [pre [post [E _]]]. eauto.
    + intros [pre [post ->]]. apply includes_app.
  - intros H. apply replace_first_occurrence. exact H.
  - unfold entry. destruct (includes "@c.us" id); simpl; split; congruence.
Qed.

Lemma classify_decision_rule_witness :
  classifyStep (JStr "G1") (JStr "Family")
     {| r_id := JStr "1234567890@c.us"; r_name := JNull; r_ok := false |}
     {| numbers := []; hidden := []; allEntries := [] |} =
    Ok {| numbers := [{| n_number := "1234567890"; n_name := JStr "1234567890" |}];
          hidden := [];
          allEntries :=
            [{| e_groupId := JStr "G1"; e_groupName := JStr "Family";
                e_name := JStr "1234567890"; e_number := Some "1234567890";
                e_id := JStr "1234567890@c.us"; e_type := TNumber |}] |} /\
  classifyStep (JStr "G1") (JStr "Family")
     {| r_id := JStr "ABCXYZ@lid"; r_name := JNull; r_ok := false |}
     {| numbers := []; hidden := []; allEntries := [] |} =
    Ok {| numbers := [];
          hidden := [{| h_id := JStr "ABCXYZ@lid"; h_name := JStr "ABCXYZ@lid" |}];
          allEntries :=
            [{| e_groupId := JStr "G1"; e_groupName := JStr "Family";
                e_name := JStr "ABCXYZ@lid"; e_number := None;
                e_id := JStr "ABCXYZ@lid"; e_type := THidden |}] |} /\
  (e_number {| e_groupId := JStr "G1"; e_groupName := JStr "Family";
               e_name := JStr "ABCXYZ@lid"; e_number := None;
               e_id := JStr "ABCXYZ@lid"; e_type := THidden |} <> None <->
   type_string THidden = "number").
Proof.
  split; [reflexivity|]. split; [reflexivity|].
  exact (proj2 (proj2 (proj2
    (classify_decision_rule (JStr "G1") (JStr "Family") "ABCXYZ@lid" JNull false
       {| numbers := []; hidden := []; allEntries := [] |})))).
Defined.

(** Every duplicate-free list of non-empty strings is the collected set
    of some chat: the resolver can receive any of them. *)
Lemma set_add_all_fresh (l : list string) (seen : list JsVal) :
  NoDup l ->
  (forall s, In s l -> ~ In (JStr s) seen) ->
  set_add_all seen (map JStr l) = seen ++ map JStr l.
Proof.
  revert seen. induction l as [|s r IH]; intros seen Hnd Hfresh; cbn [map set_add_all].
  - now rewrite app_nil_r.
  - inversion Hnd as [|? ? Hs Hr]; subst.
    destruct (existsb (same_value_zero (JStr s)) seen) eqn:E.
    + apply existsb_exists in E. destruct E as [y [Hy Hsy]].
      apply same_value_zero_eq in Hsy. subst y.
      exfalso. apply (Hfresh s); [now left | exact Hy].
    + rewrite IH; [now rewrite <- app_assoc | exact Hr |].
      intros t Ht Hin. apply in_app_or in Hin. destruct Hin as [Hin|[Heq|[]]].
      * apply (Hfresh t); [now right | exact Hin].
      * injection Heq as ->. contradiction.
Qed.

Lemma collect_any_id_set (l : list string) :
  NoDup l -> Forall (fun s => s <> "") l ->
  collect (JObj [("participants", JArr (map JStr l))]) = Ok (map JStr l).
Proof.
  intros Hnd Hne. rewrite (collect_array _ (map JStr l)); [|reflexivity].
  f_equal.
  assert (E : filter truthy (map normalize_nonempty (map JStr l)) = map JStr l).
  { induction Hne as [|s r Hs _ IH]; [reflexivity|].
    inversion Hnd; subst. cbn [map].
    assert (Hn : normalize_nonempty (JStr s) = JStr s).
    { unfold normalize_nonempty. simpl. apply String.eqb_neq in Hs. now rewrite Hs. }
    rewrite Hn. cbn [filter]. simpl truthy.
    apply String.eqb_neq in Hs. rewrite Hs. cbn [negb]. f_equal. apply IH. assumption. }
  rewrite E. unfold unique. rewrite set_add_all_fresh; auto.
Qed.

(** *** C1, the contact resolver *)

Section Pipeline.

Variable client : Client.

Lemma collect_output (chat : JsVal) (ids : list JsVal) :
  collect chat = Ok ids ->
  exists cands, ids = unique (filter truthy cands).
Proof.
  unfold collect. destruct (member chat "participants") as [p|e]; [|discriminate].
  cbn [bind].
  match goal with
  | |- bind ?c _ = _ -> _ => destruct c as [cands|e]; [|discriminate]
  end.
  cbn [bind]. intros [= <-]. eauto.
Qed.

Lemma collect_truthy (chat : JsVal) (ids : list JsVal) :
  collect chat = Ok ids -> Forall (fun v => truthy v = true) ids.
Proof.
  intros H. destruct (collect_output chat ids H) as [cands ->].
  apply set_add_all_truthy; [constructor | apply filter_truthy_all].
Qed.

Lemma collect_distinct (chat : JsVal) (ids : list JsVal) :
  collect chat = Ok ids -> distinct_values ids.
Proof.
  intros H. destruct (collect_output chat ids H) as [cands ->].
  apply unique_distinct.
Qed.

Lemma contactName_returns (contact : JsVal) :
  exists name, contactName contact = Ok name.
Proof.
  unfold contactName, opt_member.
  destruct contact as [| |b|n| |neg|s|l|props|ks vs]; simpl; eauto.
  destruct (truthy (own_prop props "pushname")); eauto.
  destruct (truthy (own_prop props "name")); eauto.
  destruct (truthy (own_prop props "number")); simpl; eauto.
Qed.

Lemma resolveContacts_eq (ids : list JsVal) :
  resolveContacts client ids =
  filter (fun p => truthy (r_id p)) (map (settled_entry client) ids).
Proof.
  unfold resolveContacts, allSettled. rewrite !map_map.
  f_equal. apply map_ext. intros id. unfold settled_entry.
  destruct (contactPromise client id); reflexivity.
Qed.

Lemma settled_entry_string (id : JsVal) :
  typeof id = "string" ->
  r_id (settled_entry client id) = id /\
  (forall err, getContactById client id = Throw err ->
     settled_entry client id = {| r_id := id; r_name := JNull; r_ok := false |}) /\
  (forall contact, getContactById client id = Ok contact ->
     exists name, contactName contact = Ok name /\
       settled_entry client id = {| r_id := id; r_name := name; r_ok := true |}).
Proof.
  intros Hs. unfold settled_entry, contactPromise. rewrite Hs. cbn [String.eqb negb].
  change (("string" =? "string")%string) with true. cbn [negb].
  destruct (getContactById client id) as [contact|err]; cbn [bind catch].
  - destruct (contactName_returns contact) as [name Hn]. rewrite Hn. cbn [bind catch].
    repeat split.
    + intros err H. discriminate.
    + intros c [= <-]. eauto.
  - repeat split.
    + intros c H. discriminate.
Qed.

Lemma resolveContacts_strings (ids : list JsVal) :
  Forall (fun v => truthy v = true) ids ->
  Forall (fun v => typeof v = "string") ids ->
  resolveContacts client ids = map (settled_entry client) ids.
Proof.
  intros Ht Hs. rewrite resolveContacts_eq.
  induction ids as [|id r IH]; [reflexivity|].
  inversion Ht as [|? ? Ht1 Ht2]; inversion Hs as [|? ? Hs1 Hs2]; subst.
  cbn [map filter].
  rewrite (proj1 (settled_entry_string id Hs1)), Ht1.
  f_equal. apply IH; assumption.
Qed.

(** C1: for the ids of a collected set, all of them strings, the
    resolver returns one entry per id, in the order of the ids; the
    entry of an id whose lookup fails is [{id, name: null, ok: false}],
    and the entry of an id whose lookup succeeds is
    [{id, name, ok: true}] whatever the other lookups did. *)
Theorem resolveContacts_one_entry_per_id (chat : JsVal)
  (ids : list JsVal)
  (Hids : collect chat = Ok ids)
  (Hstr : Forall (fun v => typeof v = "string") ids) :
  length (resolveContacts client ids) = length ids /\
  map r_id (resolveContacts client ids) = ids /\
  (forall i id err,
     nth_error ids i = Some id -> getContactById client id = Throw err ->
     nth_error (resolveContacts client ids) i =
       Some {| r_id := id; r_name := JNull; r_ok := false |}) /\
  (forall i id contact,
     nth_error ids i = Some id -> getContactById client id = Ok contact ->
     exists name,
       contactName contact = Ok name /\
       nth_error (resolveContacts client ids) i =
         Some {| r_id := id; r_name := name; r_ok := true |}).
Proof.
  pose proof (collect_truthy chat ids Hids) as Ht.
  rewrite (resolveContacts_strings ids Ht Hstr).
  assert (Hin : forall i id, nth_error ids i = Some id -> typeof id = "string").
  { intros i id Hi. rewrite Forall_forall in Hstr. apply Hstr.
    eapply nth_error_In. exact Hi. }
  repeat split.
  - apply length_map.
  - rewrite map_map. rewrite <- (map_id ids) at 2.
    apply map_ext_in. intros id Hid. apply settled_entry_string.
    rewrite Forall_forall in Hstr. apply Hstr. exact Hid.
  - intros i id err Hi Herr. rewrite nth_error_map, Hi. cbn [option_map].
    f_equal.
    exact (proj1 (proj2 (settled_entry_string id (Hin i id Hi))) err Herr).
  - intros i id contact Hi Hc.
    destruct (proj2 (proj2 (settled_entry_string id (Hin i id Hi))) contact Hc)
      as [name [Hn He]].
    exists name. split; [exact Hn|].
    rewrite nth_error_map, Hi. cbn [option_map]. now rewrite He.
Qed.

(** *** C2, the per-group loop *)

Lemma String_of_error_nonempty (err : JsError) : String_of_error err <> "".
Proof.
  unfold String_of_error. destruct err as [n m]. cbn [err_name err_message].
  destruct (m =? "")%string; destruct n; discriminate.
Qed.

Lemma typeof_string (v : JsVal) : typeof v = "string" -> exists s, v = JStr s.
Proof. destruct v; simpl; try discriminate. eauto. Qed.

Lemma resolveContacts_string_ids (raw : list JsVal) :
  Forall (fun p => exists s, r_id p = JStr s) (resolveContacts client raw).
Proof.
  rewrite resolveContacts_eq. apply Forall_forall. intros p Hp.
  apply filter_In in Hp. destruct Hp as [Hin Ht].
  apply in_map_iff in Hin. destruct Hin as [id [<- _]].
  destruct (String.eqb_spec (typeof id) "string") as [Hs|Hs].
  - rewrite (proj1 (settled_entry_string id Hs)).
    apply typeof_string. exact Hs.
  - assert (E : settled_entry client id = unresolved_null).
    { unfold settled_entry, contactPromise.
      apply String.eqb_neq in Hs. rewrite Hs. reflexivity. }
    rewrite E in Ht. discriminate.
Qed.

Lemma entry_row_in_incl (e : Entry) (ns ns' : list NumberRow) (hs hs' : list HiddenRow) :
  incl ns ns' -> incl hs hs' -> entry_row_in e ns hs -> entry_row_in e ns' hs'.
Proof.
  unfold entry_row_in. intros Hn Hh. destruct (e_number e); intros [Ht Hi]; auto.
Qed.

Lemma classifyStep_string_id (gid gName : JsVal) (p : Resolved) (acc : Acc) :
  (exists s, r_id p = JStr s) ->
  exists acc' e,
    classifyStep gid gName p acc = Ok acc' /\
    allEntries acc' = allEntries acc ++ [e] /\
    e_groupId e = gid /\
    incl (numbers acc) (numbers acc') /\
    incl (hidden acc) (hidden acc') /\
    entry_row_in e (numbers acc') (hidden acc').
Proof.
  intros [s Hs]. unfold classifyStep. rewrite Hs. cbn [call_includes bind].
  destruct (includes phone_tag s); cbn [call_replace bind];
    eexists; eexists; (split; [reflexivity|]); cbn [allEntries numbers hidden];
    (split; [reflexivity|]); (split; [reflexivity|]);
    unfold entry_row_in; cbn [e_number e_type e_name e_id];
    repeat split; try apply incl_refl; try (apply incl_appl, incl_refl);
    apply in_or_app; right; left; reflexivity.
Qed.

Lemma classifyAll_string_ids (gid gName : JsVal) (ps : list Resolved) :
  Forall (fun p => exists s, r_id p = JStr s) ps ->
  forall acc, exists acc' es,
    classifyAll gid gName ps acc = (Ok tt, acc') /\
    allEntries acc' = allEntries acc ++ es /\
    incl (numbers acc) (numbers acc') /\
    incl (hidden acc) (hidden acc') /\
    Forall (fun e => e_groupId e = gid /\
                     entry_row_in e (numbers acc') (hidden acc')) es.
Proof.
  induction 1 as [|p ps Hp _ IH]; intros acc; cbn [classifyAll].
  - exists acc, []. rewrite app_nil_r.
    repeat split; try apply incl_refl. constructor.
  - destruct (classifyStep_string_id gid gName p acc Hp)
      as [acc1 [e [He [Pa [Hg [Pn [Ph Pr]]]]]]].
    rewrite He.
    destruct (IH acc1) as [acc' [es [Hc [Ha [Hn [Hh Hes]]]]]].
    exists acc', (e :: es). repeat split.
    + exact Hc.
    + rewrite Ha, Pa, <- app_assoc. reflexivity.
    + eapply incl_tran; eassumption.
    + eapply incl_tran; eassumption.
    + constructor; [|exact Hes]. split; [exact Hg|].
      eapply entry_row_in_incl; eassumption.
Qed.

Lemma extractGroup_fetch_fails (gid : JsVal) (all : list Entry)
  (err : JsError) :
  getChatById client gid = Throw err ->
  extractGroup client gid all = (Throw err, all).
Proof. intros H. unfold extractGroup. rewrite H. reflexivity. Qed.

Lemma extractGroup_cases (gid : JsVal) (all : list Entry) :
  (exists err, extractGroup client gid all = (Throw err, all)) \/
  (exists chat g es,
     getChatById client gid = Ok chat /\
     extractGroup client gid all = (Ok g, all ++ es) /\
     g_groupId g = gid /\ g_error g = None /\
     Forall (fun e => e_groupId e = gid /\
                      entry_row_in e (g_numbers g) (g_hiddenIds g)) es).
Proof.
  unfold extractGroup.
  destruct (getChatById client gid) as [chat|err]; cbn [bind]; [|left; eauto].
  destruct (opt_member chat "name") as [name|err]; cbn [bind]; [|left; eauto].
  destruct (collect chat) as [raw|err]; cbn [bind]; [|left; eauto].
  destruct (classifyAll_string_ids gid (js_or name gid) (resolveContacts client raw)
              (resolveContacts_string_ids raw)
              {| numbers := []; hidden := []; allEntries := all |})
    as [acc' [es [Hc [Ha [_ [_ Hes]]]]]].
  rewrite Hc. right. exists chat. eexists. exists es.
  split; [reflexivity|]. split; [rewrite Ha; reflexivity|].
  repeat split. exact Hes.
Qed.

Lemma from_successful_group_shift (gid : JsVal) (gids : list JsVal)
  (g : GroupResult) (rs : list GroupResult) (e : Entry) :
  from_successful_group client gids rs e ->
  from_successful_group client (gid :: gids) (g :: rs) e.
Proof.
  intros [i [gid' [chat [g' H]]]]. exists (S i), gid', chat, g'. exact H.
Qed.

Lemma extractGroups_spec (gids : list JsVal) :
  forall results all, exists rs es,
    extractGroups client gids results all = (results ++ rs, all ++ es) /\
    map g_groupId rs = gids /\
    (forall i gid err,
       nth_error gids i = Some gid -> getChatById client gid = Throw err ->
       nth_error rs i = Some (failedGroup gid err)) /\
    Forall (from_successful_group client gids rs) es.
Proof.
  induction gids as [|gid rest IH]; intros results all; cbn [extractGroups].
  - exists [], []. rewrite !app_nil_r. repeat split.
    + intros [|i] gid err H; discriminate.
    + constructor.
  - destruct (extractGroup_cases gid all)
      as [[err He] | [chat [g [es0 [Hchat [He [Hg [Herr Hes0]]]]]]]]; rewrite He.
    + destruct (IH (results ++ [failedGroup gid err]) all) as [rs [es [E [Hm [Hf Hs]]]]].
      exists (failedGroup gid err :: rs), es. repeat split.
      * rewrite E, <- app_assoc. reflexivity.
      * cbn [map failedGroup g_groupId]. now rewrite Hm.
      * intros [|i] gid' err' Hi Hfail; cbn [nth_error] in *.
        -- injection Hi as <-.
           rewrite (extractGroup_fetch_fails gid all err' Hfail) in He.
           injection He as ->. reflexivity.
        -- eapply Hf; eassumption.
      * eapply Forall_impl; [|exact Hs].
        intros e. apply from_successful_group_shift.
    + destruct (IH (results ++ [g]) (all ++ es0)) as [rs [es [E [Hm [Hf Hs]]]]].
      exists (g :: rs), (es0 ++ es). repeat split.
      * rewrite E, <- !app_assoc. reflexivity.
      * cbn [map]. now rewrite Hg, Hm.
      * intros [|i] gid' err' Hi Hfail; cbn [nth_error] in *.
        -- injection Hi as <-. congruence.
        -- eapply Hf; eassumption.
      * apply Forall_app. split.
        -- eapply Forall_impl; [|exact Hes0].
           intros e [E1 E2]. exists 0%nat, gid, chat, g. repeat split; assumption.
        -- eapply Forall_impl; [|exact Hs].
           intros e. apply from_successful_group_shift.
Qed.

(** C2: [extract] returns one group result per selected group id, in
    the order of the ids; the result of an id whose chat fetch throws
    carries the (non-empty) error string and empty [numbers] and
    [hiddenIds], and the loop goes on; and every entry of
    [combined.all] comes from a group whose chat was fetched and whose
    result carries no error. *)
Theorem extract_isolates_group_failures
  (selectedGroups : list JsVal) :
  let view := extract client selectedGroups in
  length (perGroupResults view) = length selectedGroups /\
  map g_groupId (perGroupResults view) = selectedGroups /\
  (forall i gid err,
     nth_error selectedGroups i = Some gid ->
     getChatById client gid = Throw err ->
     exists g,
       nth_error (perGroupResults view) i = Some g /\
       g_groupId g = gid /\
       g_error g = Some (String_of_error err) /\
       String_of_error err <> "" /\
       g_numbers g = [] /\ g_hiddenIds g = []) /\
  (forall e, In e (combined_all view) ->
     from_successful_group client selectedGroups (perGroupResults view) e).
Proof.
  unfold extract.
  destruct (extractGroups_spec selectedGroups [] []) as [rs [es [E [Hm [Hf Hs]]]]].
  rewrite E. cbn [app perGroupResults combined_all].
  repeat split.
  - rewrite <- Hm. now rewrite length_map.
  - exact Hm.
  - intros i gid err Hi Hfail. exists (failedGroup gid err).
    repeat split.
    + eapply Hf; eassumption.
    + apply String_of_error_nonempty.
  - intros e He. rewrite Forall_forall in Hs. apply Hs. exact He.
Qed.

End Pipeline.

Lemma resolveContacts_one_entry_per_id_witness :
  collect chat_witness = Ok [JStr "1234567890@c.us"; JStr "ABCXYZ@lid"] /\
  resolveContacts client_witness [JStr "1234567890@c.us"; JStr "ABCXYZ@lid"] =
    [{| r_id := JStr "1234567890@c.us"; r_name := JStr "Alice"; r_ok := true |};
     {| r_id := JStr "ABCXYZ@lid"; r_name := JNull; r_ok := false |}] /\
  length (resolveContacts client_witness
            [JStr "1234567890@c.us"; JStr "ABCXYZ@lid"]) = 2%nat.
Proof.
  split; [reflexivity|]. split; [reflexivity|].
  refine (proj1 (resolveContacts_one_entry_per_id client_witness chat_witness
                   [JStr "1234567890@c.us"; JStr "ABCXYZ@lid"] _ _)).
  - reflexivity.
  - repeat constructor.
Defined.

Lemma extract_isolates_group_failures_witness :
  let view := extract client_witness [JStr "G1"; JStr "G2"] in
  map g_error (perGroupResults view) = [Some "Error: not found"; None] /\
  map e_groupId (combined_all view) = [JStr "G2"; JStr "G2"] /\
  length (perGroupResults view) = 2%nat.
Proof.
  split; [reflexivity|]. split; [reflexivity|].
  exact (proj1 (extract_isolates_group_failures client_witness
                  [JStr "G1"; JStr "G2"])).
Defined.

(** *** JSON: the text of a value parses back to the value *)

Lemma append_assoc (a b c : string) : ((a ++ b) ++ c = a ++ (b ++ c))%string.
Proof. induction a as [|x a IH]; cbn [append]; [reflexivity | now rewrite IH]. Qed.

Lemma append_length (a b : string) :
  String.length (a ++ b) = (String.length a + String.length b)%nat.
Proof. induction a as [|x a IH]; cbn [append String.length]; [reflexivity | now rewrite IH]. Qed.

Lemma skip_ws_blank (w s : string) :
  blank w = true -> skip_ws (w ++ s) = skip_ws s.
Proof.
  induction w as [|c w IH]; cbn [append blank]; intros H; [reflexivity|].
  apply andb_prop in H. destruct H as [Hc Hw].
  cbn [skip_ws]. rewrite Hc. apply IH. exact Hw.
Qed.

Lemma blank_app (a b : string) :
  blank a = true -> blank b = true -> blank (a ++ b) = true.
Proof.
  induction a as [|c a IH]; cbn [append blank]; intros Ha Hb; [exact Hb|].
  apply andb_prop in Ha. destruct Ha as [Hc Ha].
  rewrite Hc. cbn [andb]. apply IH; assumption.
Qed.

Lemma starts_value_facts (c : ascii) :
  starts_value c = true ->
  is_ws c = false /\ (c =? "]")%char = false /\ (c =? "}")%char = false /\
  (c =? ",")%char = false.
Proof.
  destruct c as [[] [] [] [] [] [] [] []]; intros H; try discriminate H;
    repeat split; reflexivity.
Qed.

Lemma skip_ws_nonblank (c : ascii) (r : string) :
  is_ws c = false -> skip_ws (String c r) = String c r.
Proof. intros H. cbn [skip_ws]. now rewrite H. Qed.

(** Numbers. *)

Lemma digit_of_number_dispatch (c : ascii) :
  digit_of c <> None \/ c = "-"%char ->
  (c =? "n")%char = false /\ (c =? "t")%char = false /\ (c =? "f")%char = false /\
  (c =? DQUOTE)%char = false /\ (c =? "[")%char = false /\ (c =? "{")%char = false /\
  starts_value c = true.
Proof.
  destruct c as [[] [] [] [] [] [] [] []]; intros [H|H];
    try (exfalso; apply H; reflexivity); try discriminate H;
    repeat split; reflexivity.
Qed.

Lemma read_digits_cons (c : ascii) (r : string) :
  read_digits (String c r) =
  match digit_of c with
  | Some d => let (u, r') := read_digits r in (d u, r')
  | None => (Decimal.Nil, String c r)
  end.
Proof. reflexivity. Qed.

Lemma read_digits_uint_string (u : Decimal.uint) (rest : string) :
  continues_number rest = false ->
  read_digits (uint_string u ++ rest) = (u, rest).
Proof.
  intros Hr.
  induction u; cbn [uint_string append];
    try (rewrite read_digits_cons, IHu; reflexivity).
  destruct rest as [|c r]; [reflexivity|].
  rewrite read_digits_cons. cbn [continues_number] in Hr.
  destruct (digit_of c); [discriminate | reflexivity].
Qed.

Lemma uint_beq_refl (u : Decimal.uint) : Decimal.uint_beq u u = true.
Proof. apply Decimal.internal_uint_dec_lb. reflexivity. Qed.

Lemma unorm_not_Nil (u : Decimal.uint) : Decimal.unorm u <> Decimal.Nil.
Proof.
  unfold Decimal.unorm. destruct (Decimal.nzhead u) eqn:E; discriminate.
Qed.

Lemma to_uint_normal (n : N) : Decimal.unorm (N.to_uint n) = N.to_uint n.
Proof.
  rewrite <- (DecimalN.Unsigned.to_of (N.to_uint n)).
  now rewrite DecimalN.Unsigned.of_to.
Qed.

Lemma to_uint_not_Nil (n : N) : Decimal.uint_beq (N.to_uint n) Decimal.Nil = false.
Proof.
  destruct (Decimal.uint_beq (N.to_uint n) Decimal.Nil) eqn:E; [|reflexivity].
  apply Decimal.internal_uint_dec_bl in E.
  exfalso. apply (unorm_not_Nil (N.to_uint n)). now rewrite to_uint_normal.
Qed.

Lemma uint_string_first (u : Decimal.uint) (rest : string) :
  Decimal.uint_beq u Decimal.Nil = false ->
  exists c r, (uint_string u ++ rest)%string = String c r /\ digit_of c <> None /\
              c <> "-"%char.
Proof.
  destruct u; cbn [uint_string append]; intros H; try discriminate H;
    eexists; eexists; (split; [reflexivity|]); split; discriminate.
Qed.

Lemma continues_number_closes (rest : string) :
  continues_number rest = false ->
  closes "." rest = false /\ closes "e" rest = false /\ closes "E" rest = false.
Proof.
  destruct rest as [|c r]; cbn [continues_number closes]; [auto|].
  destruct (digit_of c); [discriminate|]. intros H.
  apply orb_false_elim in H. destruct H as [H HE].
  apply orb_false_elim in H. destruct H as [Hp He]. auto.
Qed.

Lemma number_value_integer (negative : bool) (u : Decimal.uint) :
  number_value negative u Decimal.Nil 0 =
  number_of_integer negative (Z.of_N (N.of_uint u)).
Proof.
  unfold number_value.
  change (Z.of_nat (Decimal.nb_digits Decimal.Nil)) with 0%Z.
  change (N.of_uint Decimal.Nil) with 0%N.
  change (0 <=? 0)%Z with true. cbv iota.
  change (Z.of_N 0) with 0%Z. change (0 - 0)%Z with 0%Z.
  change (10 ^ 0)%Z with 1%Z.
  now rewrite !Z.mul_1_r, Z.add_0_r.
Qed.

Lemma parse_number_digits (negative : bool) (u : Decimal.uint) (s rest : string) :
  closes "-" s = negative ->
  (if negative then drop 1 s else s) = (uint_string u ++ rest)%string ->
  Decimal.uint_beq u Decimal.Nil = false ->
  Decimal.unorm u = u ->
  continues_number rest = false ->
  parse_number s =
    match number_of_integer negative (Z.of_N (N.of_uint u)) with
    | Some v => Parsed v rest
    | None => Unmodelled
    end.
Proof.
  intros Hneg Hs Hn Hu Hr. unfold parse_number.
  rewrite Hneg, Hs, (read_digits_uint_string u rest Hr), Hn, Hu, uint_beq_refl.
  cbn [negb].
  destruct (continues_number_closes rest Hr) as [Hp [He HE]].
  unfold read_fraction, read_exponent. rewrite Hp, He, HE. cbn [orb].
  now rewrite number_value_integer.
Qed.

Lemma parse_number_Number_toString (n : Z) (rest : string) :
  safe_integer n = true ->
  continues_number rest = false ->
  parse_number (Number_toString n ++ rest) = Parsed (JNum n) rest.
Proof.
  intros Hsafe Hr. unfold safe_integer in Hsafe. apply Z.leb_le in Hsafe.
  unfold Number_toString. destruct (n <? 0)%Z eqn:E.
  - apply Z.ltb_lt in E. cbn [append].
    rewrite (parse_number_digits true (N.to_uint (Z.to_N (- n))) _ rest);
      auto using to_uint_not_Nil, to_uint_normal.
    rewrite DecimalN.Unsigned.of_to. unfold number_of_integer.
    rewrite Z2N.id by lia.
    replace ((- n =? 0)%Z) with false by (symmetry; apply Z.eqb_neq; lia).
    replace ((- n <=? MAX_SAFE_INTEGER)%Z) with true
      by (symmetry; apply Z.leb_le; lia).
    now rewrite Z.opp_involutive.
  - apply Z.ltb_ge in E.
    destruct (uint_string_first (N.to_uint (Z.to_N n)) rest (to_uint_not_Nil _))
      as [c [r [Ec [_ Hm]]]].
    rewrite (parse_number_digits false (N.to_uint (Z.to_N n)) _ rest);
      auto using to_uint_not_Nil, to_uint_normal.
    + rewrite DecimalN.Unsigned.of_to. unfold number_of_integer.
      rewrite Z2N.id by lia.
      destruct (n =? 0)%Z eqn:E0.
      * apply Z.eqb_eq in E0. now subst n.
      * replace ((n <=? MAX_SAFE_INTEGER)%Z) with true
          by (symmetry; apply Z.leb_le; lia).
        reflexivity.
    + rewrite Ec. cbn [closes]. apply Ascii.eqb_neq. exact Hm.
Qed.

Lemma Number_toString_first (n : Z) (rest : string) :
  exists c r, (Number_toString n ++ rest)%string = String c r /\
              (digit_of c <> None \/ c = "-"%char).
Proof.
  unfold Number_toString. destruct (n <? 0)%Z.
  - cbn [append]. eauto.
  - destruct (uint_string_first (N.to_uint (Z.to_N n)) rest (to_uint_not_Nil _))
      as [c [r [E [Hd _]]]]. eauto.
Qed.

(** Strings. *)

Lemma parse_chars_escape_char (c : ascii) (t : string) :
  parse_chars (escape_char c ++ t) = cons_char c (parse_chars t).
Proof.
  destruct c as [[] [] [] [] [] [] [] []]; reflexivity.
Qed.

Lemma parse_chars_escape (s rest : string) :
  parse_chars (escape s ++ String DQUOTE rest) = Parsed s rest.
Proof.
  induction s as [|c s IH]; cbn [escape append].
  - reflexivity.
  - rewrite append_assoc, parse_chars_escape_char, IH. reflexivity.
Qed.

(** Objects. *)

Lemma insert_prop_last (props : list (string * JsVal)) (k : string) (v : JsVal) :
  forallb (fun k' => negb (key_before k k')) (map fst props) = true ->
  insert_prop props k v = props ++ [(k, v)].
Proof.
  induction props as [|[k' v'] r IH]; cbn [insert_prop map fst forallb app];
    intros H; [reflexivity|].
  apply andb_prop in H. destruct H as [Hk Hr].
  apply negb_true_iff in Hk. rewrite Hk. f_equal. apply IH. exact Hr.
Qed.

Lemma define_prop_fresh (props : list (string * JsVal)) (k : string) (v : JsVal) :
  existsb (String.eqb k) (map fst props) = false ->
  forallb (fun k' => negb (key_before k k')) (map fst props) = true ->
  define_prop props k v = props ++ [(k, v)].
Proof.
  intros Hf Ho. unfold define_prop. rewrite Hf. apply insert_prop_last. exact Ho.
Qed.

Lemma fold_define_prop (m acc : list (string * JsVal)) :
  distinct_keys (map fst m) = true ->
  enumeration_order (map fst m) = true ->
  (forall k, In k (map fst m) -> existsb (String.eqb k) (map fst acc) = false) ->
  (forall k, In k (map fst m) ->
     forallb (fun k' => negb (key_before k k')) (map fst acc) = true) ->
  fold_left (fun props kv => define_prop props (fst kv) (snd kv)) m acc = acc ++ m.
Proof.
  revert acc. induction m as [|[k v] m IH]; intros acc Hd Ho Hfresh Hlast;
    cbn [fold_left].
  - now rewrite app_nil_r.
  - cbn [map fst snd distinct_keys enumeration_order] in *.
    apply andb_prop in Hd. destruct Hd as [Hk Hm].
    apply andb_prop in Ho. destruct Ho as [Hko Hmo].
    rewrite define_prop_fresh
      by (first [apply Hfresh; now left | apply Hlast; now left]).
    rewrite IH; [now rewrite <- app_assoc | exact Hm | exact Hmo | |].
    + intros k' Hk'. rewrite map_app, existsb_app. cbn [map fst existsb].
      rewrite (Hfresh k') by (now right). cbn [orb]. rewrite orb_false_r.
      apply negb_true_iff in Hk.
      destruct (String.eqb_spec k' k) as [->|]; [|reflexivity].
      exfalso. rewrite <- not_true_iff_false in Hk. apply Hk.
      apply existsb_exists. exists k. split; [exact Hk' | apply String.eqb_refl].
    + intros k' Hk'. rewrite map_app, forallb_app. cbn [map fst forallb].
      rewrite (Hlast k') by (now right). cbn [andb]. rewrite andb_true_r.
      rewrite forallb_forall in Hko. apply Hko. exact Hk'.
Qed.

Lemma object_of_distinct (m : list (string * JsVal)) :
  distinct_keys (map fst m) = true -> enumeration_order (map fst m) = true ->
  object_of m = JObj m.
Proof.
  intros Hd Ho. unfold object_of. rewrite fold_define_prop; auto.
Qed.

(** Induction on values, through the lists they nest. *)
Lemma JsVal_nested_ind (P : JsVal -> Prop) :
  P JUndefined -> P JNull -> (forall b, P (JBool b)) -> (forall n, P (JNum n)) ->
  P JNaN -> (forall neg, P (JInf neg)) -> (forall s, P (JStr s)) ->
  (forall l, Forall P l -> P (JArr l)) ->
  (forall props, Forall (fun kv => P (snd kv)) props -> P (JObj props)) ->
  (forall ks vs, P (JColl ks vs)) ->
  forall v, P v.
Proof.
  intros HU HN HB HZ HNaN HI HS HA HO HC.
  fix IH 1. intros [| |b|n| |neg|s|l|props|ks vs].
  - exact HU.
  - exact HN.
  - apply HB.
  - apply HZ.
  - exact HNaN.
  - apply HI.
  - apply HS.
  - apply HA. induction l as [|x r IHl]; constructor; [apply IH | exact IHl].
  - apply HO. induction props as [|[k x] r IHl]; constructor; [apply IH | exact IHl].
  - apply HC.
Qed.

Lemma plain_json_serialized (v : JsVal) (indent : string) :
  plain_json v = true -> SerializeJSONProperty indent v = Some (text indent v).
Proof.
  unfold text. destruct v as [| |[]|n| |neg|s|l|props|ks vs]; cbn [plain_json SerializeJSONProperty];
    intros H; try discriminate H; reflexivity.
Qed.

Lemma text_array (indent : string) (l : list JsVal) :
  text indent (JArr l) =
  wrap "[" "]" indent (indent ++ gap) (map (text (indent ++ gap)) l).
Proof. reflexivity. Qed.

Lemma text_object (indent : string) (props : list (string * JsVal)) :
  forallb (fun kv => plain_json (snd kv)) props = true ->
  text indent (JObj props) =
  wrap "{" "}" indent (indent ++ gap) (map (member_text (indent ++ gap)) props).
Proof.
  intros H. unfold text at 1. cbn [SerializeJSONProperty]. f_equal.
  induction props as [|[k x] r IH]; [reflexivity|].
  cbn [forallb snd] in H. apply andb_prop in H. destruct H as [Hx Hr].
  cbn [flat_map map snd fst]. rewrite (plain_json_serialized x _ Hx).
  cbn [app]. unfold member_text at 1. cbn [fst snd]. f_equal. apply IH. exact Hr.
Qed.

Lemma wrap_nonempty (o c : ascii) (stepback indent t rest : string) (ts : list string) :
  (wrap o c stepback indent (t :: ts) ++ rest)%string =
  String o (String LF (indent ++
    String.concat (String "," (String LF indent)) (t :: ts) ++
    String LF (stepback ++ String c rest)))%string.
Proof.
  unfold wrap. cbn [append]. rewrite !append_assoc. cbn [append].
  rewrite !append_assoc. reflexivity.
Qed.

Lemma concat_cons2 (sep t t' : string) (ts : list string) :
  String.concat sep (t :: t' :: ts) = (t ++ sep ++ String.concat sep (t' :: ts))%string.
Proof. reflexivity. Qed.

Lemma text_first (v : JsVal) (indent rest : string) :
  plain_json v = true ->
  exists c r, (text indent v ++ rest)%string = String c r /\ starts_value c = true.
Proof.
  destruct v as [| |[]|n| |neg|s|l|props|ks vs]; cbn [plain_json]; intros H;
    try discriminate H.
  - do 2 eexists. split; reflexivity.
  - do 2 eexists. split; reflexivity.
  - do 2 eexists. split; reflexivity.
  - unfold text. cbn [SerializeJSONProperty].
    destruct (Number_toString_first n rest) as [c [r [E Hc]]].
    exists c, r. split; [exact E|]. apply digit_of_number_dispatch. exact Hc.
  - do 2 eexists. split; reflexivity.
  - rewrite text_array. destruct l; do 2 eexists; split; reflexivity.
  - apply andb_prop in H. destruct H as [_ H].
    rewrite (text_object _ _ H). destruct props; do 2 eexists; split; reflexivity.
Qed.

(** The parser, one step. *)

Lemma parse_value_literal (f : nat) (s lit r : string) (c : ascii) (v : JsVal)
  (Hs : skip_ws s = String c r) :
  ((c =? "n")%char = true -> lit = "null" /\ v = JNull) ->
  ((c =? "n")%char = false -> (c =? "t")%char = true -> lit = "true" /\ v = JBool true) ->
  ((c =? "n")%char = false -> (c =? "t")%char = false ->
   (c =? "f")%char = true /\ lit = "false" /\ v = JBool false) ->
  parse_value (S f) s = expect lit v (String c r).
Proof.
  intros H1 H2 H3. cbn [parse_value]. rewrite Hs.
  destruct (c =? "n")%char.
  - destruct H1 as [-> ->]; reflexivity.
  - destruct (c =? "t")%char.
    + destruct H2 as [-> ->]; reflexivity.
    + destruct H3 as [-> [-> ->]]; reflexivity.
Qed.

Lemma parse_value_string (f : nat) (s r : string) :
  skip_ws s = String DQUOTE r ->
  parse_value (S f) s =
  and_then (parse_chars r) (fun str rest => Parsed (JStr str) rest).
Proof. intros Hs. cbn [parse_value]. rewrite Hs. reflexivity. Qed.

Lemma parse_value_array (f : nat) (s r : string) :
  skip_ws s = String "[" r ->
  parse_value (S f) s =
  if closes "]" (skip_ws r) then Parsed (JArr []) (drop 1 (skip_ws r))
  else and_then (parse_elements f r) (fun l rest => Parsed (JArr l) rest).
Proof. intros Hs. cbn [parse_value]. rewrite Hs. reflexivity. Qed.

Lemma parse_value_object (f : nat) (s r : string) :
  skip_ws s = String "{" r ->
  parse_value (S f) s =
  if closes "}" (skip_ws r) then Parsed (JObj []) (drop 1 (skip_ws r))
  else and_then (parse_members f r) (fun m rest => Parsed (object_of m) rest).
Proof. intros Hs. cbn [parse_value]. rewrite Hs. reflexivity. Qed.

Lemma parse_value_number (f : nat) (s r : string) (c : ascii) :
  skip_ws s = String c r ->
  digit_of c <> None \/ c = "-"%char ->
  parse_value (S f) s = parse_number (String c r).
Proof.
  intros Hs Hc. cbn [parse_value]. rewrite Hs.
  destruct (digit_of_number_dispatch c Hc) as [-> [-> [-> [-> [-> [-> _]]]]]].
  reflexivity.
Qed.

Lemma parse_elements_step (f : nat) (s : string) :
  parse_elements (S f) s =
  and_then (parse_value f s) (fun v r =>
    if closes "," (skip_ws r) then
      and_then (parse_elements f (drop 1 (skip_ws r)))
               (fun l rest => Parsed (v :: l) rest)
    else if closes "]" (skip_ws r) then Parsed [v] (drop 1 (skip_ws r))
    else Malformed).
Proof. destruct f; reflexivity. Qed.

Lemma parse_members_step (f : nat) (s : string) :
  parse_members (S f) s =
  if closes DQUOTE (skip_ws s) then
    and_then (parse_chars (drop 1 (skip_ws s))) (fun k r1 =>
      if closes ":" (skip_ws r1) then
        and_then (parse_value f (drop 1 (skip_ws r1))) (fun v r3 =>
          if closes "," (skip_ws r3) then
            and_then (parse_members f (drop 1 (skip_ws r3)))
                     (fun m rest => Parsed ((k, v) :: m) rest)
          else if closes "}" (skip_ws r3) then
            Parsed [(k, v)] (drop 1 (skip_ws r3))
          else Malformed)
      else Malformed)
  else Malformed.
Proof. destruct f; reflexivity. Qed.

Lemma drop_append (lit rest : string) : drop (String.length lit) (lit ++ rest) = rest.
Proof. induction lit as [|c lit IH]; cbn [append String.length drop]; [reflexivity | exact IH]. Qed.

Lemma expect_append (lit rest : string) (v : JsVal) :
  expect lit v (lit ++ rest) = Parsed v rest.
Proof. unfold expect. now rewrite prefix_app, drop_append. Qed.

Lemma skip_ws_closing (stepback rest : string) (c : ascii) :
  blank stepback = true -> is_ws c = false ->
  skip_ws (String LF (stepback ++ String c rest)) = String c rest.
Proof.
  intros Hb Hc. cbn [skip_ws]. change (is_ws LF) with true. cbn iota.
  rewrite skip_ws_blank by exact Hb. apply skip_ws_nonblank. exact Hc.
Qed.

Lemma parse_elements_back (l : list JsVal) :
  Forall parses_back l -> forallb plain_json l = true -> l <> [] ->
  forall fuel inner stepback w rest,
    (fold_right (fun x n => S (size x + n)) 0 l <= fuel)%nat ->
    blank inner = true -> blank stepback = true -> blank w = true ->
    parse_elements fuel
      (w ++ String.concat (String "," (String LF inner)) (map (text inner) l) ++
       String LF (stepback ++ String "]" rest)) = Parsed l rest.
Proof.
  induction 1 as [|x l Hx Hl IH]; intros Hj Hne fuel inner stepback w rest Hf Hi Hs Hw;
    [congruence|].
  cbn [forallb] in Hj. apply andb_prop in Hj. destruct Hj as [Hjx Hjl].
  cbn [fold_right] in Hf. destruct fuel as [|f]; [lia|].
  rewrite parse_elements_step.
  destruct l as [|y l].
  - cbn [map String.concat].
    rewrite (Hx Hjx f inner w _); [|lia|assumption|assumption|reflexivity].
    cbn [and_then].
    rewrite skip_ws_closing by (assumption || reflexivity).
    reflexivity.
  - cbn [map]. rewrite concat_cons2, !append_assoc. cbn [append].
    rewrite (Hx Hjx f inner w _); [|cbn [fold_right] in Hf; lia|assumption|assumption|reflexivity].
    cbn [and_then].
    rewrite skip_ws_nonblank by reflexivity.
    change (closes "," (String "," ?r)) with true. cbn iota. cbn [drop].
    change (String LF (inner ++ ?t))%string with ((String LF inner) ++ t)%string.
    change (text inner y :: map (text inner) l) with (map (text inner) (y :: l)).
    rewrite (IH Hjl); [reflexivity|discriminate|lia|assumption|assumption|].
    cbn [blank]. now rewrite Hi.
Qed.

Lemma parse_members_back (props : list (string * JsVal)) :
  Forall (fun kv => parses_back (snd kv)) props ->
  forallb (fun kv => plain_json (snd kv)) props = true -> props <> [] ->
  forall fuel inner stepback w rest,
    (fold_right (fun kv n => S (size (snd kv) + n)) 0 props <= fuel)%nat ->
    blank inner = true -> blank stepback = true -> blank w = true ->
    parse_members fuel
      (w ++ String.concat (String "," (String LF inner)) (map (member_text inner) props) ++
       String LF (stepback ++ String "}" rest)) = Parsed props rest.
Proof.
  induction 1 as [|[k x] l Hx Hl IH]; intros Hj Hne fuel inner stepback w rest Hf Hi Hs Hw;
    [congruence|].
  cbn [forallb snd] in Hj, Hx. apply andb_prop in Hj. destruct Hj as [Hjx Hjl].
  cbn [fold_right snd] in Hf. destruct fuel as [|f]; [lia|].
  rewrite parse_members_step.
  assert (Hkey : forall tail,
            (w ++ member_text inner (k, x) ++ tail)%string =
            (w ++ String DQUOTE (escape k ++ String DQUOTE
                    (String ":" (" " ++ text inner x ++ tail))))%string).
  { intros tail. unfold member_text, QuoteJSONString. cbn [fst snd append].
    rewrite !append_assoc. cbn [append]. reflexivity. }
  destruct l as [|y l].
  - cbn [map String.concat]. rewrite Hkey.
    rewrite skip_ws_blank, skip_ws_nonblank by (assumption || reflexivity).
    change (closes DQUOTE (String DQUOTE ?r)) with true. cbn iota. cbn [drop].
    rewrite parse_chars_escape. cbn [and_then].
    rewrite skip_ws_nonblank by reflexivity.
    change (closes ":" (String ":" ?r)) with true. cbn iota. cbn [drop].
    rewrite (Hx Hjx f inner " " _); [|lia|assumption|reflexivity|reflexivity].
    cbn [and_then].
    rewrite skip_ws_closing by (assumption || reflexivity).
    reflexivity.
  - cbn [map]. rewrite concat_cons2, !append_assoc. cbn [append]. rewrite Hkey.
    rewrite skip_ws_blank, skip_ws_nonblank by (assumption || reflexivity).
    change (closes DQUOTE (String DQUOTE ?r)) with true. cbn iota. cbn [drop].
    rewrite parse_chars_escape. cbn [and_then].
    rewrite skip_ws_nonblank by reflexivity.
    change (closes ":" (String ":" ?r)) with true. cbn iota. cbn [drop].
    rewrite (Hx Hjx f inner " " _);
      [|cbn [fold_right] in Hf; lia|assumption|reflexivity|reflexivity].
    cbn [and_then].
    rewrite skip_ws_nonblank by reflexivity.
    change (closes "," (String "," ?r)) with true. cbn iota. cbn [drop].
    change (String LF (inner ++ ?t))%string with ((String LF inner) ++ t)%string.
    change (member_text inner y :: map (member_text inner) l)
      with (map (member_text inner) (y :: l)).
    rewrite (IH Hjl); [reflexivity|discriminate|cbn [fold_right] in Hf |- *; lia
                      |assumption|assumption|].
    cbn [blank]. now rewrite Hi.
Qed.

Lemma blank_gap (indent : string) : blank indent = true -> blank (indent ++ gap) = true.
Proof. intros H. apply blank_app; [exact H | reflexivity]. Qed.

Lemma first_not_closing (s : string) (c d : ascii) (r : string) (w : string) :
  s = String c r -> starts_value c = true -> blank w = true ->
  (d = "]" \/ d = "}")%char ->
  closes d (skip_ws (String LF (w ++ s))) = false.
Proof.
  intros -> Hc Hw Hd.
  destruct (starts_value_facts c Hc) as [Hws [H1 [H2 _]]].
  cbn [skip_ws]. change (is_ws LF) with true. cbn iota.
  rewrite skip_ws_blank by exact Hw. rewrite skip_ws_nonblank by exact Hws.
  cbn [closes]. destruct Hd as [-> | ->]; assumption.
Qed.

Lemma concat_first {A : Type} (f : A -> string) (x : A) (l : list A)
  (sep tail : string) :
  (forall t, exists c r, (f x ++ t)%string = String c r /\ starts_value c = true) ->
  exists c r, (String.concat sep (map f (x :: l)) ++ tail)%string = String c r /\
              starts_value c = true.
Proof.
  intros H. destruct l as [|y l].
  - apply H.
  - cbn [map]. rewrite concat_cons2, append_assoc. apply H.
Qed.

Lemma parse_value_text (v : JsVal) : parses_back v.
Proof.
  induction v as [| |b|n| |neg|s|l IHl|props IHp|ks vs] using JsVal_nested_ind;
    intros Hj fuel indent w rest Hf Hi Hw Hr; try discriminate Hj;
    (destruct fuel as [|f]; [cbn [size] in Hf; lia|]).
  - rewrite (parse_value_literal f _ "null" ("ull" ++ rest) "n" JNull).
    + apply (expect_append "null").
    + rewrite skip_ws_blank by exact Hw. reflexivity.
    + intros _. split; reflexivity.
    + discriminate.
    + discriminate.
  - destruct b.
    + rewrite (parse_value_literal f _ "true" ("rue" ++ rest) "t" (JBool true)).
      * apply (expect_append "true").
      * rewrite skip_ws_blank by exact Hw. reflexivity.
      * discriminate.
      * intros _ _. split; reflexivity.
      * discriminate.
    + rewrite (parse_value_literal f _ "false" ("alse" ++ rest) "f" (JBool false)).
      * apply (expect_append "false").
      * rewrite skip_ws_blank by exact Hw. reflexivity.
      * discriminate.
      * discriminate.
      * intros _ _. repeat split; reflexivity.
  - unfold text. cbn [SerializeJSONProperty].
    destruct (Number_toString_first n rest) as [c [r [E Hc]]].
    destruct (digit_of_number_dispatch c Hc) as [_ [_ [_ [_ [_ [_ Hsv]]]]]].
    rewrite (parse_value_number f _ r c).
    + rewrite <- E. apply parse_number_Number_toString; assumption.
    + rewrite skip_ws_blank by exact Hw. rewrite E.
      apply skip_ws_nonblank. apply starts_value_facts. exact Hsv.
    + exact Hc.
  - unfold text. cbn [SerializeJSONProperty]. unfold QuoteJSONString.
    cbn [append].
    rewrite (parse_value_string f _ ((escape s ++ String DQUOTE "") ++ rest)).
    + rewrite append_assoc. cbn [append]. rewrite parse_chars_escape. reflexivity.
    + rewrite skip_ws_blank by exact Hw. reflexivity.
  - cbn [plain_json] in Hj. rewrite text_array.
    destruct l as [|x l].
    + rewrite (parse_value_array f _ (String "]" rest)).
      * reflexivity.
      * rewrite skip_ws_blank by exact Hw. reflexivity.
    + cbn [map]. rewrite wrap_nonempty.
      rewrite (parse_value_array f _ _
                 (eq_trans (skip_ws_blank w _ Hw) (skip_ws_nonblank "[" _ eq_refl))).
      assert (Hx : plain_json x = true).
      { cbn [forallb] in Hj. apply andb_prop in Hj. tauto. }
      change (text (indent ++ gap) x :: map (text (indent ++ gap)) l)
        with (map (text (indent ++ gap)) (x :: l)).
      destruct (concat_first (text (indent ++ gap)) x l
                  (String "," (String LF (indent ++ gap)))
                  (String LF (indent ++ String "]" rest))
                  (fun tail => text_first x (indent ++ gap) tail Hx))
        as [c [r [E Hc]]].
      rewrite (first_not_closing _ c "]" r (indent ++ gap) E Hc (blank_gap _ Hi))
        by (now left).
      change (String LF ((indent ++ gap) ++ ?t))%string
        with ((String LF (indent ++ gap)) ++ t)%string.
      rewrite (parse_elements_back (x :: l) IHl Hj); try reflexivity; try assumption.
      * discriminate.
      * cbn [size] in Hf. lia.
      * now apply blank_gap.
      * cbn [blank]. now rewrite (blank_gap _ Hi).
  - cbn [plain_json] in Hj. apply andb_prop in Hj. destruct Hj as [Hd Hj].
    apply andb_prop in Hd. destruct Hd as [Hd Ho].
    rewrite (text_object _ _ Hj).
    destruct props as [|[k x] l].
    + rewrite (parse_value_object f _ (String "}" rest)).
      * reflexivity.
      * rewrite skip_ws_blank by exact Hw. reflexivity.
    + cbn [map]. rewrite wrap_nonempty.
      rewrite (parse_value_object f _ _
                 (eq_trans (skip_ws_blank w _ Hw) (skip_ws_nonblank "{" _ eq_refl))).
      change (member_text (indent ++ gap) (k, x) :: map (member_text (indent ++ gap)) l)
        with (map (member_text (indent ++ gap)) ((k, x) :: l)).
      destruct (concat_first (member_text (indent ++ gap)) (k, x) l
                  (String "," (String LF (indent ++ gap)))
                  (String LF (indent ++ String "}" rest))
                  (fun tail => ex_intro _ DQUOTE (ex_intro _ _ (conj eq_refl eq_refl))))
        as [c [r [E Hc]]].
      rewrite (first_not_closing _ c "}" r (indent ++ gap) E Hc (blank_gap _ Hi))
        by (now right).
      change (String LF ((indent ++ gap) ++ ?t))%string
        with ((String LF (indent ++ gap)) ++ t)%string.
      rewrite (parse_members_back ((k, x) :: l) IHp Hj); try assumption.
      * cbn [and_then]. rewrite object_of_distinct by assumption. reflexivity.
      * discriminate.
      * cbn [size] in Hf. lia.
      * now apply blank_gap.
      * cbn [blank]. now rewrite (blank_gap _ Hi).
Qed.

(** The fuel [JSON_parse_text] gives is enough: a text is longer than
    the size of its value. *)

Lemma append_nil_r (s : string) : (s ++ "")%string = s.
Proof. induction s as [|c s IH]; cbn [append]; [reflexivity | now rewrite IH]. Qed.

Lemma concat_length (sep t : string) (ts : list string) :
  (1 <= String.length sep)%nat ->
  (fold_right (fun t n => S (String.length t + n)) 0 (t :: ts)
   <= S (String.length (String.concat sep (t :: ts))))%nat.
Proof.
  intros Hsep. revert t. induction ts as [|t' ts IH]; intros t.
  - cbn [fold_right String.concat]. lia.
  - rewrite concat_cons2, !append_length.
    specialize (IH t'). cbn [fold_right] in IH |- *. lia.
Qed.

Lemma wrap_length (o c : ascii) (stepback indent : string) (ts : list string) :
  (S (fold_right (fun t n => S (String.length t + n)) 0 ts)
   <= String.length (wrap o c stepback indent ts))%nat.
Proof.
  destruct ts as [|t ts].
  - cbn. lia.
  - pose proof (concat_length (String "," (String LF indent)) t ts) as H.
    unfold wrap. cbn [append String.length] in *. rewrite !append_length.
    cbn [String.length]. specialize (H ltac:(lia)). lia.
Qed.

Lemma size_le_length (v : JsVal) :
  plain_json v = true -> forall indent, (size v <= String.length (text indent v))%nat.
Proof.
  induction v as [| |b|n| |neg|s|l IHl|props IHp|ks vs] using JsVal_nested_ind;
    intros Hj indent; try discriminate Hj.
  - cbn. lia.
  - destruct b; cbn; lia.
  - unfold text. cbn [SerializeJSONProperty size].
    destruct (Number_toString_first n "") as [c [r [E _]]].
    rewrite append_nil_r in E. rewrite E. cbn [String.length]. lia.
  - cbn. lia.
  - cbn [plain_json] in Hj. rewrite text_array. cbn [size].
    eapply Nat.le_trans; [|apply wrap_length]. apply le_n_S.
    induction IHl as [|x l Hx _ IH]; [apply Nat.le_refl|].
    cbn [forallb] in Hj. apply andb_prop in Hj. destruct Hj as [Hjx Hjl].
    cbn [map fold_right]. specialize (Hx Hjx (indent ++ gap)%string).
    specialize (IH Hjl). lia.
  - cbn [plain_json] in Hj. apply andb_prop in Hj. destruct Hj as [_ Hj].
    rewrite (text_object _ _ Hj). cbn [size].
    eapply Nat.le_trans; [|apply wrap_length]. apply le_n_S.
    induction IHp as [|[k x] l Hx _ IH]; [apply Nat.le_refl|].
    cbn [forallb snd] in Hj, Hx. apply andb_prop in Hj. destruct Hj as [Hjx Hjl].
    cbn [map fold_right snd]. specialize (Hx Hjx (indent ++ gap)%string).
    specialize (IH Hjl).
    unfold member_text at 1. cbn [fst snd]. rewrite !append_length. lia.
Qed.

Lemma JSON_parse_stringify (v : JsVal) :
  plain_json v = true ->
  JSON_stringify v = Some (text "" v) /\
  JSON_parse_text (text "" v) = Some (Ok v).
Proof.
  intros Hj. split; [apply plain_json_serialized; exact Hj|].
  unfold JSON_parse_text.
  pose proof (parse_value_text v Hj (S (String.length (text "" v))) "" "" "") as H.
  cbn [append] in H. rewrite append_nil_r in H.
  rewrite H; [reflexivity| |reflexivity|reflexivity|reflexivity].
  pose proof (size_le_length v Hj ""). lia.
Qed.

(** *** The export handler *)

Section ExportHandler.

Variable env : ExportEnv.
Variable g : Globals.

Lemma export_files_unsupported (payload : JsVal) (format : string) :
  supported format = false ->
  export_files env payload format [] =
    (match fs_fails env (EnsureDir (path_join (dirname env) "exports")) with
     | Some e => Throw e
     | None => Ok (Send 400 "Unsupported format")
     end,
     [EnsureDir (path_join (dirname env) "exports")]).
Proof.
  unfold supported. intros H.
  apply orb_false_elim in H. destruct H as [H Hj].
  apply orb_false_elim in H. destruct H as [Hc Hx].
  unfold export_files, io_bind, fs_call. cbn [app].
  destruct (fs_fails env (EnsureDir (path_join (dirname env) "exports")));
    [reflexivity|].
  rewrite Hc, Hx, Hj. reflexivity.
Qed.

Lemma export_handler_valid (body p0 v fmt : JsVal)
  (format : string) :
  isAuthenticated g = true ->
  member body "payload" = Ok p0 -> truthy p0 = true ->
  decode_payload env p0 = Some v -> nonempty_array v = true ->
  member body "format" = Ok fmt -> lower_format fmt = Ok format ->
  export_handler env g body =
    match export_files env v format [] with
    | (Ok response, trace) => (Ok response, trace)
    | (Throw _, trace) => (Ok (Send 500 "Export failed"), trace)
    end.
Proof.
  intros Ha Hp Ht Hd Hn Hf Hl. unfold export_handler.
  rewrite Ha, Hp, Ht, Hd, Hn, Hf. cbn [negb bind]. rewrite Hl. reflexivity.
Qed.

(** *** C5, the export validation *)


(** *** C7, the JSON export *)


(** *** C10, the default format and its case *)

Lemma export_handler_format (body body' p0 fmt fmt' : JsVal) :
  member body "payload" = Ok p0 -> member body' "payload" = Ok p0 ->
  member body "format" = Ok fmt -> member body' "format" = Ok fmt' ->
  lower_format fmt = lower_format fmt' ->
  export_handler env g body = export_handler env g body'.
Proof.
  intros Hp Hp' Hf Hf' Hl. unfold export_handler.
  rewrite Hp, Hp', Hf, Hf'. cbn [bind]. rewrite Hl. reflexivity.
Qed.

Lemma export_files_supported (payload : JsVal) (format : string) :
  supported format = true ->
  fst (export_files env payload format []) <> Ok (Send 400 "Unsupported format").
Proof.
  unfold supported, export_files, io_bind, fs_call, io_lift, io_ret. cbn [app].
  destruct (fs_fails env (EnsureDir _)); [discriminate|].
  destruct (format =? "csv")%string.
  - intros _. destruct (json2csv env csv_fields payload); [|discriminate].
    destruct (fs_fails env _); discriminate.
  - destruct (format =? "xlsx")%string.
    + intros _. destruct (json_to_sheet env payload); [|discriminate].
      destruct (fs_fails env _); discriminate.
    + destruct (format =? "json")%string; [|discriminate].
      intros _. destruct (JSON_stringify payload); [|discriminate].
      destruct (fs_fails env _); discriminate.
Qed.

Lemma lower_char_same_letter (c d : ascii) :
  same_letter c d = true -> lower_char c = lower_char d.
Proof.
  unfold same_letter, is_upper, lower_char. intros H.
  apply orb_prop in H. destruct H as [H|H]; [apply orb_prop in H; destruct H as [H|H]|].
  - apply Ascii.eqb_eq in H. now subst d.
  - apply andb_prop in H. destruct H as [Hu Hd]. rewrite Hu.
    apply Nat.eqb_eq in Hd. rewrite Hd.
    apply andb_prop in Hu. destruct Hu as [H1 H2].
    apply Nat.leb_le in H1. apply Nat.leb_le in H2.
    replace ((nat_of_ascii c + 32 <=? 90)%nat) with false
      by (symmetry; apply Nat.leb_gt; lia).
    rewrite andb_false_r. rewrite <- Hd. now rewrite ascii_nat_embedding.
  - apply andb_prop in H. destruct H as [Hu Hc]. rewrite Hu.
    apply Nat.eqb_eq in Hc. rewrite Hc.
    apply andb_prop in Hu. destruct Hu as [H1 H2].
    apply Nat.leb_le in H1. apply Nat.leb_le in H2.
    replace ((nat_of_ascii d + 32 <=? 90)%nat) with false
      by (symmetry; apply Nat.leb_gt; lia).
    rewrite andb_false_r. rewrite <- Hc. now rewrite ascii_nat_embedding.
Qed.

Lemma toLowerCase_same_up_to_case (a b : string) :
  same_up_to_case a b = true -> toLowerCase a = toLowerCase b.
Proof.
  revert b. induction a as [|c a IH]; intros [|d b] H; try discriminate H.
  - reflexivity.
  - cbn [same_up_to_case] in H. apply andb_prop in H. destruct H as [Hc Hr].
    cbn [toLowerCase]. now rewrite (lower_char_same_letter c d Hc), (IH b Hr).
Qed.

Lemma lower_format_selects (fmt : JsVal) (name : string) :
  supported name = true -> selects fmt name -> lower_format fmt = Ok name.
Proof.
  intros Hs Hsel.
  assert (Hlow : toLowerCase name = name).
  { unfold supported in Hs.
    destruct (String.eqb_spec name "csv") as [E|_]; [rewrite E; reflexivity|].
    destruct (String.eqb_spec name "xlsx") as [E|_]; [rewrite E; reflexivity|].
    destruct (String.eqb_spec name "json") as [E|_]; [rewrite E; reflexivity|].
    discriminate Hs. }
  destruct Hsel as [[Hf ->]|[f [-> Hc]]].
  - unfold lower_format, js_or. rewrite Hf. reflexivity.
  - unfold lower_format, js_or. cbn [truthy].
    destruct (String.eqb_spec f "") as [->|_].
    + destruct name as [|d name']; [discriminate Hs | discriminate Hc].
    + cbn [negb]. now rewrite (toLowerCase_same_up_to_case f name Hc), Hlow.
Qed.

Lemma lower_format_name (name : string) :
  supported name = true -> lower_format (JStr name) = Ok name.
Proof.
  intros Hs. unfold supported in Hs.
  destruct (String.eqb_spec name "csv") as [E|_]; [rewrite E; reflexivity|].
  destruct (String.eqb_spec name "xlsx") as [E|_]; [rewrite E; reflexivity|].
  destruct (String.eqb_spec name "json") as [E|_]; [rewrite E; reflexivity|].
  discriminate Hs.
Qed.

(** C10: a format field that is absent (or falsy) selects csv, and a
    string that spells csv, xlsx or json up to the case of its letters
    selects that name.  Every request whose format selects a name is
    answered as the same request with that name spelled in lower case,
    and never with "Unsupported format".  When the request is valid and
    the export directory is ensured, the formatter of the name runs:
    CSV writes what the CSV parser returns for the payload to the
    [.csv] file, XLSX writes the sheet of the payload to the [.xlsx]
    workbook, JSON writes [JSON.stringify(payload, null, 2)] to the
    [.json] file, and the answer is the download of that file once it
    is written. *)
Theorem export_format_default_and_case
  (body p0 fmt : JsVal) (name : string)
  (Hp : member body "payload" = Ok p0)
  (Hf : member body "format" = Ok fmt)
  (Hname : supported name = true)
  (Hsel : selects fmt name) :
  let out := path_join (dirname env) "exports" in
  let fname := makeExportFilename env "whatsapp-export" in
  (forall body',
     member body' "payload" = Ok p0 ->
     member body' "format" = Ok (JStr name) ->
     export_handler env g body = export_handler env g body') /\
  fst (export_handler env g body) <> Ok (Send 400 "Unsupported format") /\
  (forall v,
     isAuthenticated g = true -> truthy p0 = true ->
     decode_payload env p0 = Some v -> nonempty_array v = true ->
     fs_fails env (EnsureDir out) = None ->
     (name = "csv" ->
        forall csv, json2csv env csv_fields v = Ok csv ->
          snd (export_handler env g body) =
            [EnsureDir out; WriteFile (path_join out (fname "csv")) csv] /\
          (fs_fails env (WriteFile (path_join out (fname "csv")) csv) = None ->
           fst (export_handler env g body) =
             Ok (Download (path_join out (fname "csv")) (fname "csv")))) /\
     (name = "xlsx" ->
        forall ws, json_to_sheet env v = Ok ws ->
          snd (export_handler env g body) =
            [EnsureDir out;
             WriteWorkbook (path_join out (fname "xlsx")) "Export" ws] /\
          (fs_fails env
             (WriteWorkbook (path_join out (fname "xlsx")) "Export" ws) = None ->
           fst (export_handler env g body) =
             Ok (Download (path_join out (fname "xlsx")) (fname "xlsx")))) /\
     (name = "json" ->
        forall data, JSON_stringify v = Some data ->
          snd (export_handler env g body) =
            [EnsureDir out; WriteFile (path_join out (fname "json")) data] /\
          (fs_fails env (WriteFile (path_join out (fname "json")) data) = None ->
           fst (export_handler env g body) =
             Ok (Download (path_join out (fname "json")) (fname "json"))))).
Proof.
  cbv zeta.
  pose proof (lower_format_selects fmt name Hname Hsel) as Hl.
  split; [|split].
  - intros body' Hp' Hf'.
    apply (export_handler_format body body' p0 fmt (JStr name)); try assumption.
    now rewrite Hl, (lower_format_name name Hname).
  - unfold export_handler. rewrite Hp, Hf. cbn [bind]. rewrite Hl.
    destruct (negb (isAuthenticated g)); [discriminate|].
    destruct (negb (truthy p0)); [discriminate|].
    destruct (decode_payload env p0) as [v|]; [|discriminate].
    destruct (negb (nonempty_array v)); [discriminate|].
    pose proof (export_files_supported v name Hname) as H.
    destruct (export_files env v name []) as [[r|e] trace];
      cbn [fst] in *; [exact H | discriminate].
  - intros v Hauth Ht Hd Hn Hdir.
    rewrite (export_handler_valid body p0 v fmt name) by assumption.
    unfold export_files, io_bind, fs_call, io_lift, io_ret. cbn [app].
    rewrite Hdir.
    split; [|split]; intros ->.
    + intros csv Hcsv.
      change (("csv" =? "csv")%string) with true. cbv iota. rewrite Hcsv.
      destruct (fs_fails env (WriteFile _ csv)) eqn:Hw; cbn [fst snd app].
      * split; [reflexivity|]. intros H. discriminate H.
      * split; reflexivity.
    + intros ws Hws.
      change (("xlsx" =? "csv")%string) with false.
      change (("xlsx" =? "xlsx")%string) with true. cbv iota. rewrite Hws.
      destruct (fs_fails env (WriteWorkbook _ "Export" ws)) eqn:Hw;
        cbn [fst snd app].
      * split; [reflexivity|]. intros H. discriminate H.
      * split; reflexivity.
    + intros data Hdata.
      change (("json" =? "csv")%string) with false.
      change (("json" =? "xlsx")%string) with false.
      change (("json" =? "json")%string) with true. cbv iota. rewrite Hdata.
      destruct (fs_fails env (WriteFile _ data)) eqn:Hw; cbn [fst snd app].
      * split; [reflexivity|]. intros H. discriminate H.
      * split; reflexivity.
Qed.

End ExportHandler.





Lemma export_format_default_and_case_witness :
  export_handler env_witness authenticated (JObj [("payload", payload_witness)]) =
    export_handler env_witness authenticated (export_body "csv") /\
  snd (export_handler env_witness authenticated (JObj [("payload", payload_witness)])) =
    [EnsureDir "/app/exports";
     WriteFile "/app/exports/whatsapp-export-2025-01-31.csv"
               "groupName,groupId,name,number,id,type"] /\
  snd (export_handler env_witness authenticated (export_body "CSV")) =
    [EnsureDir "/app/exports";
     WriteFile "/app/exports/whatsapp-export-2025-01-31.csv"
               "groupName,groupId,name,number,id,type"] /\
  snd (export_handler env_witness authenticated (export_body "XLSX")) =
    [EnsureDir "/app/exports";
     WriteWorkbook "/app/exports/whatsapp-export-2025-01-31.xlsx" "Export"
                   payload_witness] /\
  snd (export_handler env_witness authenticated (export_body "Json")) =
    [EnsureDir "/app/exports";
     WriteFile "/app/exports/whatsapp-export-2025-01-31.json"
               (text "" payload_witness)] /\
  fst (export_handler env_witness authenticated (export_body "Json")) <>
    Ok (Send 400 "Unsupported format").
Proof.
  split; [|split; [|split; [|split; [|split]]]].
  - exact (proj1 (export_format_default_and_case env_witness authenticated
             (JObj [("payload", payload_witness)]) payload_witness JUndefined "csv"
             eq_refl eq_refl eq_refl (or_introl (conj eq_refl eq_refl)))
             (export_body "csv") eq_refl eq_refl).
  - exact (proj1 (proj1 (proj2 (proj2 (export_format_default_and_case env_witness
             authenticated
             (JObj [("payload", payload_witness)]) payload_witness JUndefined "csv"
             eq_refl eq_refl eq_refl (or_introl (conj eq_refl eq_refl))))
             payload_witness eq_refl eq_refl eq_refl eq_refl eq_refl)
             eq_refl _ eq_refl)).
  - exact (proj1 (proj1 (proj2 (proj2 (export_format_default_and_case env_witness
             authenticated
             (export_body "CSV") payload_witness (JStr "CSV") "csv"
             eq_refl eq_refl eq_refl
             (or_intror (ex_intro _ "CSV" (conj eq_refl eq_refl)))))
             payload_witness eq_refl eq_refl eq_refl eq_refl eq_refl)
             eq_refl _ eq_refl)).
  - exact (proj1 (proj1 (proj2 (proj2 (proj2 (export_format_default_and_case env_witness
             authenticated
             (export_body "XLSX") payload_witness (JStr "XLSX") "xlsx"
             eq_refl eq_refl eq_refl
             (or_intror (ex_intro _ "XLSX" (conj eq_refl eq_refl)))))
             payload_witness eq_refl eq_refl eq_refl eq_refl eq_refl))
             eq_refl _ eq_refl)).
  - exact (proj1 (proj2 (proj2 (proj2 (proj2 (export_format_default_and_case env_witness
             authenticated
             (export_body "Json") payload_witness (JStr "Json") "json"
             eq_refl eq_refl eq_refl
             (or_intror (ex_intro _ "Json" (conj eq_refl eq_refl)))))
             payload_witness eq_refl eq_refl eq_refl eq_refl eq_refl))
             eq_refl _ eq_refl)).
  - exact (proj1 (proj2 (export_format_default_and_case env_witness authenticated
             (export_body "Json") payload_witness (JStr "Json") "json"
             eq_refl eq_refl eq_refl
             (or_intror (ex_intro _ "Json" (conj eq_refl eq_refl)))))).
Defined.

(** *** C9, the module-level variables *)

(** C9: the [/extract] handler returns the module-level variables as it
    found them, whatever the client answers, and its response depends
    on the authenticated flag alone: it is the response obtained with
    the QR code and the groups cache erased. *)
Theorem extract_handler_preserves_globals (client : Client) (g : Globals)
  (body : JsVal) :
  snd (extract_handler client g body) = g /\
  fst (extract_handler client g body) =
    fst (extract_handler client
           {| qrCodeData := JNull; isAuthenticated := isAuthenticated g;
              groupsCache := [] |} body).
Proof.
  unfold extract_handler. cbn [isAuthenticated].
  destruct (negb (isAuthenticated g)); [split; reflexivity|].
  destruct (member body "selectedGroups") as [sel|err]; [|split; reflexivity].
  destruct (negb (truthy sel)); split; reflexivity.
Qed.

(** The session events are the ones that assign the flag and the
    cache. *)
Lemma session_events_assign_globals (g : Globals) (chats : list JsVal) :
  isAuthenticated (on_disconnected g) = false /\
  isAuthenticated (on_qr (Ok (JStr "data:image/png;base64,")) g) = false /\
  isAuthenticated (on_ready (Ok chats) g) = true /\
  (forallb (fun c => negb (nullish c)) chats = true ->
   groupsCache (on_ready (Ok chats) g) = filter is_group chats).
Proof.
  repeat split.
  - unfold on_ready, refreshGroups.
    destruct (forallb _ chats); reflexivity.
  - intros H. unfold on_ready, refreshGroups. rewrite H. reflexivity.
Qed.

(* ================================================================== *)
(** ** Further properties of the pipeline *)
(* ================================================================== *)

(** *** The collector's output *)

Lemma normalize_nonempty_null_or_string (part : JsVal) :
  normalize_nonempty part = JNull \/ exists s, normalize_nonempty part = JStr s.
Proof.
  unfold normalize_nonempty.
  repeat case_scrutinee;
    first [left; reflexivity | right; eexists; reflexivity].
Qed.

Lemma normalized_truthy_strings (l : list JsVal) :
  Forall (fun v => exists s, v = JStr s /\ s <> "")
         (filter truthy (map normalize_nonempty l)).
Proof.
  apply Forall_forall. intros v Hv. apply filter_In in Hv. destruct Hv as [Hin Ht].
  apply in_map_iff in Hin. destruct Hin as [part [<- _]].
  destruct (normalize_nonempty_null_or_string part) as [E|[s E]]; rewrite E in *.
  - discriminate Ht.
  - exists s. split; [reflexivity|]. intros ->. discriminate Ht.
Qed.

Lemma collect_normalized (chat p : JsVal) :
  member chat "participants" = Ok p ->
  (forall ks vs, p = JColl ks vs -> ks = []) ->
  exists l, collect chat = Ok (unique (filter truthy (map normalize_nonempty l))).
Proof.
  intros Hp Hshape. destruct (member_groupMetadata chat p Hp) as [gm Hgm].
  destruct p as [| |b|n| |neg|s|l|props|ks vs].
  8: { exists l. apply collect_array. exact Hp. }
  8: { exists (map snd props). apply collect_object. exact Hp. }
  8: { rewrite (Hshape ks vs eq_refl) in Hp. exists vs. apply collect_values. exact Hp. }
  all: destruct (isArray (field gm "participants")) eqn:Ea;
    [ destruct (field gm "participants") as [| | | | | | |l| |] eqn:El; try discriminate;
      exists l; eapply collect_nested; eauto
    | exists []; eapply collect_no_shape; eauto ].
Qed.

(** X1: unless the ids are the keys of a collection, every collected id
    is a non-empty string. *)
Theorem collect_ids_nonempty_strings (chat p : JsVal) (ids : list JsVal)
  (Hp : member chat "participants" = Ok p)
  (Hshape : forall ks vs, p = JColl ks vs -> ks = [])
  (Hc : collect chat = Ok ids) :
  Forall (fun v => exists s, v = JStr s /\ s <> "") ids.
Proof.
  destruct (collect_normalized chat p Hp Hshape) as [l Hl].
  rewrite Hl in Hc. injection Hc as <-.
  pose proof (normalized_truthy_strings l) as H.
  apply Forall_forall. intros v Hv. apply (proj1 (unique_In _ _)) in Hv.
  rewrite Forall_forall in H. apply H. exact Hv.
Qed.

Lemma collect_ids_nonempty_strings_witness :
  Forall (fun v => exists s, v = JStr s /\ s <> "")
         [JStr "1234567890@c.us"; JStr "ABCXYZ@lid"].
Proof.
  refine (collect_ids_nonempty_strings chat_witness
            (JArr [JObj [("id", JObj [("_serialized", JStr "1234567890@c.us")])];
                   JStr "ABCXYZ@lid"; JNull; JStr "ABCXYZ@lid"])
            [JStr "1234567890@c.us"; JStr "ABCXYZ@lid"] eq_refl _ eq_refl).
  intros ks vs H. discriminate H.
Defined.

Lemma distinct_values_app_inv (l1 l2 : list JsVal) :
  distinct_values (l1 ++ l2) ->
  distinct_values l2 /\
  forall x y, In x l1 -> In y l2 -> same_value_zero x y = false.
Proof.
  unfold distinct_values. induction l1 as [|a l1 IH]; cbn [app]; intros H.
  - split; [exact H|]. intros x y [].
  - inversion H as [|? ? Ha Hr]; subst. destruct (IH Hr) as [H2 Hx].
    split; [exact H2|]. intros x y [<-|Hin] Hy.
    + rewrite Forall_forall in Ha. apply Ha. apply in_or_app. now right.
    + now apply Hx.
Qed.

Lemma set_add_all_distinct_id (l seen : list JsVal) :
  distinct_values (seen ++ l) -> set_add_all seen l = seen ++ l.
Proof.
  revert seen. induction l as [|x r IH]; intros seen Hd; cbn [set_add_all].
  - now rewrite app_nil_r.
  - assert (E : existsb (same_value_zero x) seen = false).
    { destruct (existsb (same_value_zero x) seen) eqn:E; [|reflexivity].
      apply existsb_exists in E. destruct E as [y [Hy Hxy]].
      destruct (distinct_values_app_inv seen (x :: r) Hd) as [_ Hc].
      rewrite same_value_zero_sym, (Hc y x Hy (or_introl eq_refl)) in Hxy.
      discriminate Hxy. }
    rewrite E, IH; rewrite <- app_assoc; [reflexivity | exact Hd].
Qed.

Lemma unique_distinct_id (l : list JsVal) : distinct_values l -> unique l = l.
Proof. intros H. unfold unique. now rewrite set_add_all_distinct_id. Qed.

(** X2: collecting is idempotent: a chat whose participants are the
    array of an already collected set of string ids is collected to
    that same list, in the same order. *)
Theorem collect_idempotent (chat : JsVal) (ids : list JsVal)
  (Hc : collect chat = Ok ids)
  (Hs : Forall (fun v => typeof v = "string") ids) :
  collect (JObj [("participants", JArr ids)]) = Ok ids.
Proof.
  rewrite (collect_array _ ids) by reflexivity. f_equal.
  pose proof (collect_truthy chat ids Hc) as Ht.
  pose proof (collect_distinct chat ids Hc) as Hd.
  assert (E : filter truthy (map normalize_nonempty ids) = ids).
  { clear Hc Hd. induction ids as [|v r IH]; [reflexivity|].
    inversion Hs as [|? ? Hv Hr]; inversion Ht as [|? ? Tv Tr]; subst.
    destruct v; try discriminate Hv. cbn [map].
    assert (Hn : normalize_nonempty (JStr s) = JStr s).
    { unfold normalize_nonempty. rewrite Tv. reflexivity. }
    rewrite Hn. cbn [filter]. rewrite Tv. f_equal. now apply IH. }
  rewrite E. apply unique_distinct_id. exact Hd.
Qed.

Lemma collect_idempotent_witness :
  collect (JObj [("participants",
                  JArr [JStr "1234567890@c.us"; JStr "ABCXYZ@lid"])]) =
    Ok [JStr "1234567890@c.us"; JStr "ABCXYZ@lid"].
Proof.
  refine (collect_idempotent chat_witness
            [JStr "1234567890@c.us"; JStr "ABCXYZ@lid"] eq_refl _).
  repeat constructor.
Defined.

(** *** The resolver on any list *)

Lemma member_field (v : JsVal) (k : string) :
  nullish v = false -> (k =? "length")%string = false ->
  member v k = Ok (field v k).
Proof.
  intros Hn Hk. destruct v; try discriminate Hn; cbn [member field];
    rewrite ?Hk; reflexivity.
Qed.

Lemma member_nullish (v : JsVal) (k : string) :
  nullish v = true -> exists e, member v k = Throw e /\ err_name e = TypeError.
Proof.
  destruct v; try discriminate; intros _; eexists; split; reflexivity.
Qed.

Lemma opt_member_field (v : JsVal) (k : string) :
  (k =? "length")%string = false -> opt_member v k = Ok (field v k).
Proof.
  intros Hk. unfold opt_member. destruct (nullish v) eqn:Hn.
  - destruct v; try discriminate Hn; reflexivity.
  - apply member_field; assumption.
Qed.

(** X3: the resolver keeps exactly the ids that are non-empty strings,
    in their order; every other value it is given is dropped. *)
Theorem resolveContacts_keeps_strings (client : Client) (raw : list JsVal) :
  map r_id (resolveContacts client raw) =
  filter (fun v => (typeof v =? "string")%string && truthy v) raw.
Proof.
  rewrite resolveContacts_eq.
  induction raw as [|id r IH]; [reflexivity|].
  cbn [map filter].
  destruct (String.eqb_spec (typeof id) "string") as [Hs|Hs].
  - rewrite (proj1 (settled_entry_string client id Hs)). cbn [andb].
    destruct (truthy id); cbn [map]; rewrite IH; [|reflexivity].
    now rewrite (proj1 (settled_entry_string client id Hs)).
  - assert (E : settled_entry client id = unresolved_null).
    { unfold settled_entry, contactPromise.
      apply String.eqb_neq in Hs. rewrite Hs. reflexivity. }
    rewrite E. cbn [r_id unresolved_null truthy andb]. exact IH.
Qed.

Lemma contactName_priority (contact : JsVal) :
  contactName contact =
    Ok (if truthy (field contact "pushname") then field contact "pushname"
        else if truthy (field contact "name") then field contact "name"
        else if truthy (field contact "number") then field contact "number"
        else JNull).
Proof.
  unfold contactName.
  rewrite (opt_member_field contact "pushname" eq_refl). cbn [bind].
  destruct (truthy (field contact "pushname")); [reflexivity|].
  rewrite (opt_member_field contact "name" eq_refl). cbn [bind].
  destruct (truthy (field contact "name")); [reflexivity|].
  rewrite (opt_member_field contact "number" eq_refl). cbn [bind].
  destruct (truthy (field contact "number")) eqn:En; [|reflexivity].
  assert (Hc : nullish contact = false).
  { destruct contact; try reflexivity; discriminate En. }
  rewrite (member_field contact "number" Hc eq_refl). cbn [bind].
  unfold js_or. rewrite En. reflexivity.
Qed.

(** X4: every resolved entry is the entry of a looked-up id.  When the
    lookup is rejected the entry has [ok = false] and a null name.
    When it is fulfilled with a contact the entry has [ok = true] and
    its name is the contact's [pushname] when that is truthy, else its
    [name] when that is truthy, else its [number] when that is truthy,
    else null; so a name is always null or truthy. *)
Theorem resolved_name_priority (client : Client) (raw : list JsVal) :
  Forall (fun p =>
     (forall err, getContactById client (r_id p) = Throw err ->
        r_ok p = false /\ r_name p = JNull) /\
     (forall contact, getContactById client (r_id p) = Ok contact ->
        r_ok p = true /\
        (truthy (field contact "pushname") = true ->
           r_name p = field contact "pushname") /\
        (truthy (field contact "pushname") = false ->
         truthy (field contact "name") = true ->
           r_name p = field contact "name") /\
        (truthy (field contact "pushname") = false ->
         truthy (field contact "name") = false ->
         truthy (field contact "number") = true ->
           r_name p = field contact "number") /\
        (truthy (field contact "pushname") = false ->
         truthy (field contact "name") = false ->
         truthy (field contact "number") = false ->
           r_name p = JNull)) /\
     (r_name p = JNull \/ truthy (r_name p) = true))
    (resolveContacts client raw).
Proof.
  rewrite resolveContacts_eq. apply Forall_forall. intros p Hp.
  apply filter_In in Hp. destruct Hp as [Hin Ht].
  apply in_map_iff in Hin. destruct Hin as [id [<- _]].
  destruct (String.eqb_spec (typeof id) "string") as [Hs|Hs].
  - destruct (settled_entry_string client id Hs) as [Hid [Hfail Hok]].
    destruct (getContactById client id) as [contact|err] eqn:Eg.
    + destruct (Hok contact eq_refl) as [name [Hn He]]. rewrite He.
      cbn [r_name r_ok r_id]. rewrite Eg.
      rewrite contactName_priority in Hn. injection Hn as Hn.
      split; [intros err Herr; discriminate Herr|].
      split.
      * intros c [= <-]. split; [reflexivity|].
        repeat split; intros; subst name;
          repeat match goal with
                 | H : truthy _ = _ |- _ => rewrite H; clear H
                 end; reflexivity.
      * subst name.
        destruct (truthy (field contact "pushname")) eqn:E1; [now right|].
        destruct (truthy (field contact "name")) eqn:E2; [now right|].
        destruct (truthy (field contact "number")) eqn:E3; [now right|now left].
    + rewrite (Hfail err eq_refl). cbn [r_name r_ok r_id]. rewrite Eg.
      split; [intros e _; split; reflexivity|].
      split; [intros c Hc; discriminate Hc | now left].
  - assert (E : settled_entry client id = unresolved_null).
    { unfold settled_entry, contactPromise.
      apply String.eqb_neq in Hs. rewrite Hs. reflexivity. }
    rewrite E in Ht. discriminate Ht.
Qed.

(** *** The classification loop in closed form *)

Lemma classifyStep_closed (gid gName : JsVal) (p : Resolved) (acc : Acc) :
  (exists s, r_id p = JStr s) ->
  classifyStep gid gName p acc =
    Ok {| numbers := numbers acc ++ number_rows [entry_of gid gName p];
          hidden := hidden acc ++ hidden_rows [entry_of gid gName p];
          allEntries := allEntries acc ++ [entry_of gid gName p] |}.
Proof.
  intros [s Hs]. unfold classifyStep, entry_of, number_rows, hidden_rows.
  rewrite Hs. cbn [call_includes bind].
  destruct (includes phone_tag s); cbn [call_replace bind flat_map e_number e_name e_id app];
    rewrite ?app_nil_r; reflexivity.
Qed.

Lemma classifyAll_closed (gid gName : JsVal) (ps : list Resolved) :
  Forall (fun p => exists s, r_id p = JStr s) ps ->
  forall acc,
    classifyAll gid gName ps acc =
      (Ok tt,
       {| numbers := numbers acc ++ number_rows (map (entry_of gid gName) ps);
          hidden := hidden acc ++ hidden_rows (map (entry_of gid gName) ps);
          allEntries := allEntries acc ++ map (entry_of gid gName) ps |}).
Proof.
  induction 1 as [|p ps Hp _ IH]; intros acc; cbn [classifyAll map].
  - unfold number_rows, hidden_rows. cbn [flat_map]. rewrite !app_nil_r.
    destruct acc; reflexivity.
  - rewrite (classifyStep_closed gid gName p acc Hp), IH.
    cbn [numbers hidden allEntries].
    unfold number_rows, hidden_rows. cbn [flat_map].
    rewrite !app_nil_r, <- !app_assoc. reflexivity.
Qed.

Lemma rows_length (es : list Entry) :
  (length (number_rows es) + length (hidden_rows es) = length es)%nat.
Proof.
  unfold number_rows, hidden_rows.
  induction es as [|e es IH]; [reflexivity|].
  cbn [flat_map]. rewrite !length_app.
  destruct (e_number e); cbn [length]; lia.
Qed.

Lemma entry_of_id (gid gName : JsVal) (p : Resolved) :
  e_id (entry_of gid gName p) = r_id p.
Proof.
  unfold entry_of. destruct (r_id p); try reflexivity.
  destruct (includes phone_tag s); reflexivity.
Qed.

Lemma entry_of_group (gid gName : JsVal) (p : Resolved) :
  e_groupId (entry_of gid gName p) = gid /\
  e_groupName (entry_of gid gName p) = gName.
Proof.
  unfold entry_of. destruct (r_id p); try (split; reflexivity).
  destruct (includes phone_tag s); split; reflexivity.
Qed.

Lemma extractGroup_closed (client : Client) (gid chat name : JsVal)
  (raw : list JsVal) (all : list Entry) :
  getChatById client gid = Ok chat ->
  opt_member chat "name" = Ok name ->
  collect chat = Ok raw ->
  let es := map (entry_of gid (js_or name gid)) (resolveContacts client raw) in
  extractGroup client gid all =
    (Ok {| g_groupId := gid; g_groupName := js_or name gid;
           g_numbers := number_rows es; g_hiddenIds := hidden_rows es;
           g_error := None |},
     all ++ es).
Proof.
  intros Hchat Hname Hraw es. unfold extractGroup.
  rewrite Hchat. cbn [bind]. rewrite Hname. cbn [bind]. rewrite Hraw. cbn [bind].
  rewrite (classifyAll_closed gid (js_or name gid) (resolveContacts client raw)
             (resolveContacts_string_ids client raw)).
  reflexivity.
Qed.

(** X5: when the chat of a group is fetched and its collected ids are
    all strings, the result of the group carries the group's id, no
    error, and as name the chat's [name] when that is truthy and the
    group id otherwise; the group contributes exactly one entry per
    collected id, in the order of the ids, each under that id and that
    name; and its [numbers] and [hiddenIds] rows are the rows of those
    entries, so together they count as many as the ids. *)
Theorem extractGroup_one_entry_per_id (client : Client) (gid chat : JsVal)
  (ids : list JsVal) (all : list Entry)
  (Hchat : getChatById client gid = Ok chat)
  (Hids : collect chat = Ok ids)
  (Hstr : Forall (fun v => typeof v = "string") ids) :
  exists g es,
    extractGroup client gid all = (Ok g, all ++ es) /\
    g_groupId g = gid /\ g_error g = None /\
    (truthy (field chat "name") = true -> g_groupName g = field chat "name") /\
    (truthy (field chat "name") = false -> g_groupName g = gid) /\
    map e_id es = ids /\
    Forall (fun e => e_groupId e = gid /\ e_groupName e = g_groupName g) es /\
    g_numbers g = number_rows es /\
    g_hiddenIds g = hidden_rows es /\
    (length (g_numbers g) + length (g_hiddenIds g) = length ids)%nat.
Proof.
  pose proof (opt_member_field chat "name" eq_refl) as Hname.
  pose proof (extractGroup_closed client gid chat (field chat "name") ids all
                Hchat Hname Hids) as H.
  cbv zeta in H.
  pose proof (collect_truthy chat ids Hids) as Ht.
  assert (Hmap : map e_id (map (entry_of gid (js_or (field chat "name") gid))
                             (resolveContacts client ids)) = ids).
  { rewrite map_map.
    rewrite (map_ext _ r_id
               (fun p => entry_of_id gid (js_or (field chat "name") gid) p)).
    rewrite (resolveContacts_strings client ids Ht Hstr), map_map.
    rewrite <- (map_id ids) at 2. apply map_ext_in. intros id Hid.
    apply (settled_entry_string client id).
    rewrite Forall_forall in Hstr. now apply Hstr. }
  eexists. eexists. split; [exact H|].
  cbn [g_numbers g_hiddenIds g_groupName g_groupId g_error].
  split; [reflexivity|]. split; [reflexivity|].
  split; [intros E; unfold js_or; rewrite E; reflexivity|].
  split; [intros E; unfold js_or; rewrite E; reflexivity|].
  split; [exact Hmap|].
  split.
  - apply Forall_forall. intros e He. apply in_map_iff in He.
    destruct He as [p [<- _]]. apply entry_of_group.
  - split; [reflexivity|]. split; [reflexivity|].
    rewrite rows_length, length_map.
    now rewrite (resolveContacts_strings client ids Ht Hstr), length_map.
Qed.

Lemma extractGroup_one_entry_per_id_witness :
  exists g es,
    extractGroup client_witness (JStr "G2") [] = (Ok g, [] ++ es) /\
    g_groupId g = JStr "G2" /\ g_error g = None /\
    g_groupName g = JStr "Family" /\
    map e_id es = [JStr "1234567890@c.us"; JStr "ABCXYZ@lid"] /\
    Forall (fun e => e_groupId e = JStr "G2" /\ e_groupName e = g_groupName g) es /\
    (length (g_numbers g) + length (g_hiddenIds g) = 2)%nat.
Proof.
  destruct (extractGroup_one_entry_per_id client_witness (JStr "G2") chat_witness
              [JStr "1234567890@c.us"; JStr "ABCXYZ@lid"] [] eq_refl eq_refl
              ltac:(repeat constructor))
    as [g [es [H [Hg [He [Hn [_ [Hm [Hf [_ [_ Hl]]]]]]]]]]].
  exists g, es. repeat split; try assumption.
  exact (Hn eq_refl).
Defined.

(** *** The loop over the groups in closed form *)

Lemma resolveContacts_nonempty_ids (client : Client) (raw : list JsVal) :
  Forall (fun p => exists s, r_id p = JStr s /\ s <> "") (resolveContacts client raw).
Proof.
  pose proof (resolveContacts_string_ids client raw) as Hs.
  rewrite Forall_forall in Hs. apply Forall_forall. intros p Hp.
  destruct (Hs p Hp) as [s E]. exists s. split; [exact E|].
  rewrite resolveContacts_eq in Hp. apply filter_In in Hp. destruct Hp as [_ Ht].
  rewrite E in Ht. intros ->. discriminate Ht.
Qed.

Lemma js_or_cases (a b : JsVal) :
  (truthy a = true /\ js_or a b = a) \/ (truthy a = false /\ js_or a b = b).
Proof. unfold js_or. destruct (truthy a); [left | right]; split; reflexivity. Qed.

Lemma entry_of_pipeline (gid gName : JsVal) (p : Resolved) :
  (exists s, r_id p = JStr s /\ s <> "") -> pipeline_entry (entry_of gid gName p).
Proof.
  intros [s [E Hne]]. exists s. unfold entry_of. rewrite E.
  assert (Hs : truthy (JStr s) = true).
  { cbn [truthy]. apply String.eqb_neq in Hne. now rewrite Hne. }
  destruct (includes phone_tag s) eqn:Ei; cbn [e_id e_type e_number e_name];
    (split; [reflexivity|]); (split; [exact Hne|]).
  - left. repeat split.
    destruct (js_or_cases (js_or (r_name p) JNull) (JStr (replace phone_tag "" s)))
      as [[Et ->]|[_ ->]]; [now left | now right].
  - right. repeat split.
    destruct (js_or_cases (js_or (r_name p) JNull) (JStr s))
      as [[Et ->]|[_ ->]]; [exact Et | exact Hs].
Qed.

Lemma extractGroup_outcome (client : Client) (gid : JsVal) (all : list Entry) :
  exists r es,
    extractGroup client gid all = (r, all ++ es) /\
    extractGroup client gid [] = (r, es) /\
    Forall pipeline_entry es /\
    match r with
    | Ok g => g_numbers g = number_rows es /\ g_hiddenIds g = hidden_rows es /\
              g_error g = None /\ g_groupId g = gid
    | Throw _ => es = []
    end.
Proof.
  destruct (getChatById client gid) as [chat|err] eqn:Hchat.
  2: { exists (Throw err), []. unfold extractGroup. rewrite Hchat, app_nil_r.
       repeat split. constructor. }
  destruct (opt_member chat "name") as [name|err] eqn:Hname.
  2: { exists (Throw err), []. unfold extractGroup. rewrite Hchat. cbn [bind].
       rewrite Hname, app_nil_r. repeat split. constructor. }
  destruct (collect chat) as [raw|err] eqn:Hraw.
  2: { exists (Throw err), []. unfold extractGroup. rewrite Hchat. cbn [bind].
       rewrite Hname. cbn [bind]. rewrite Hraw, app_nil_r. repeat split. constructor. }
  eexists. eexists.
  split; [apply (extractGroup_closed client gid chat name raw all Hchat Hname Hraw)|].
  split; [apply (extractGroup_closed client gid chat name raw [] Hchat Hname Hraw)|].
  split; [|repeat split].
  apply Forall_forall. intros e He. apply in_map_iff in He.
  destruct He as [p [<- Hp]]. apply entry_of_pipeline.
  pose proof (resolveContacts_nonempty_ids client raw) as H.
  rewrite Forall_forall in H. now apply H.
Qed.

Lemma number_rows_app (a b : list Entry) :
  number_rows (a ++ b) = number_rows a ++ number_rows b.
Proof. apply flat_map_app. Qed.

Lemma hidden_rows_app (a b : list Entry) :
  hidden_rows (a ++ b) = hidden_rows a ++ hidden_rows b.
Proof. apply flat_map_app. Qed.

Lemma extractGroups_outcome (client : Client) (gids : list JsVal) :
  forall rs all, exists rs' es,
    extractGroups client gids rs all = (rs ++ rs', all ++ es) /\
    extractGroups client gids [] [] = (rs', es) /\
    Forall pipeline_entry es /\
    number_rows es = flat_map g_numbers rs' /\
    hidden_rows es = flat_map g_hiddenIds rs'.
Proof.
  induction gids as [|gid rest IH]; intros rs all; cbn [extractGroups].
  - exists [], []. rewrite !app_nil_r. repeat split. constructor.
  - destruct (extractGroup_outcome client gid all) as [r [es0 [E1 [E0 [Hp Hr]]]]].
    rewrite E1.
    set (g := match r with Ok g => g | Throw err => failedGroup gid err end).
    assert (Hstep : forall rs0 all0,
              match r with
              | Ok g0 => extractGroups client rest (rs0 ++ [g0]) all0
              | Throw err => extractGroups client rest (rs0 ++ [failedGroup gid err]) all0
              end = extractGroups client rest (rs0 ++ [g]) all0).
    { intros rs0 all0. unfold g. destruct r; reflexivity. }
    rewrite Hstep.
    destruct (IH (rs ++ [g]) (all ++ es0)) as [rs' [es [Ea [Eb [Hq [Hn Hh]]]]]].
    destruct (IH ([] ++ [g]) ([] ++ es0)) as [rs2 [es2 [Ec [Ed _]]]].
    rewrite Eb in Ed. injection Ed as <- <-.
    exists (g :: rs'), (es0 ++ es). repeat split.
    + rewrite Ea, <- !app_assoc. reflexivity.
    + cbn [extractGroups]. rewrite E0. cbv iota. rewrite (Hstep [] es0). exact Ec.
    + apply Forall_app. split; assumption.
    + rewrite number_rows_app, Hn. cbn [flat_map]. f_equal.
      unfold g. destruct r as [g0|err]; [apply eq_sym, Hr | now rewrite Hr].
    + rewrite hidden_rows_app, Hh. cbn [flat_map]. f_equal.
      unfold g. destruct r as [g0|err]; [apply eq_sym, Hr | now rewrite Hr].
Qed.

Lemma extractGroups_app (client : Client) (g1 g2 : list JsVal) :
  forall rs all,
    extractGroups client (g1 ++ g2) rs all =
    extractGroups client g2 (fst (extractGroups client g1 rs all))
                            (snd (extractGroups client g1 rs all)).
Proof.
  induction g1 as [|gid g1 IH]; intros rs all; cbn [app extractGroups].
  - reflexivity.
  - destruct (extractGroup client gid all) as [[g|err] all']; apply IH.
Qed.

(** X6: extracting a concatenation of two selections gives the
    concatenation of the two extractions, for the per-group results and
    for the three combined views: a group's outcome does not depend on
    the groups before it. *)
Theorem extract_app (client : Client) (g1 g2 : list JsVal) :
  perGroupResults (extract client (g1 ++ g2)) =
    perGroupResults (extract client g1) ++ perGroupResults (extract client g2) /\
  combined_all (extract client (g1 ++ g2)) =
    combined_all (extract client g1) ++ combined_all (extract client g2) /\
  combined_numbers (extract client (g1 ++ g2)) =
    combined_numbers (extract client g1) ++ combined_numbers (extract client g2) /\
  combined_hidden (extract client (g1 ++ g2)) =
    combined_hidden (extract client g1) ++ combined_hidden (extract client g2).
Proof.
  unfold extract. rewrite extractGroups_app.
  destruct (extractGroups client g1 [] []) as [rs1 all1] eqn:E1. cbn [fst snd].
  destruct (extractGroups_outcome client g2 rs1 all1) as [rs2 [es2 [Ea [Eb _]]]].
  rewrite Ea, Eb. cbn [perGroupResults combined_all combined_numbers combined_hidden].
  rewrite !filter_app. repeat split.
Qed.

Lemma extract_closed (client : Client) (gids : list JsVal) :
  exists rs es,
    extractGroups client gids [] [] = (rs, es) /\
    Forall pipeline_entry es /\
    number_rows es = flat_map g_numbers rs /\
    hidden_rows es = flat_map g_hiddenIds rs.
Proof.
  destruct (extractGroups_outcome client gids [] []) as [rs [es [_ [E H]]]].
  exists rs, es. split; [exact E | exact H].
Qed.

(** X7: every entry of [combined.all], whatever the groups and the
    client's answers, has a non-empty string id; when the id holds the
    tag the entry is of type ["number"] and its number is the id
    without the tag, otherwise it is of type ["hidden"] and has no
    number. *)
Theorem combined_entries_invariant (client : Client) (gids : list JsVal) :
  Forall pipeline_entry (combined_all (extract client gids)) /\
  Forall (fun e => (exists n, e_number e = Some n) <->
                   type_string (e_type e) = "number")
         (combined_all (extract client gids)).
Proof.
  unfold extract.
  destruct (extract_closed client gids) as [rs [es [E [Hp _]]]].
  rewrite E. cbn [combined_all]. split; [exact Hp|].
  eapply Forall_impl; [|exact Hp].
  intros e [s [_ [_ [[Ht [_ [Hn _]]]|[Ht [_ [Hn _]]]]]]]; rewrite Ht, Hn; cbn [type_string].
  - split; eauto.
  - split; [intros [n Hn']; discriminate Hn' | intros H; discriminate H].
Qed.

Lemma filter_partition_perm {A : Type} (f g : A -> bool) (l : list A) :
  (forall x, In x l -> g x = negb (f x)) ->
  Permutation (filter f l ++ filter g l) l.
Proof.
  induction l as [|x l IH]; intros H; cbn [filter app]; [constructor|].
  rewrite (H x (or_introl eq_refl)).
  assert (IH' : Permutation (filter f l ++ filter g l) l).
  { apply IH. intros y Hy. apply H. now right. }
  destruct (f x); cbn [negb app].
  - constructor. exact IH'.
  - eapply Permutation_trans; [apply Permutation_sym, Permutation_middle|].
    constructor. exact IH'.
Qed.

(** X8: [combined.numbers] and [combined.hidden] split [combined.all]:
    together they hold each of its entries once, every entry of the
    first carries a number and no entry of the second does. *)
Theorem combined_views_partition (client : Client) (gids : list JsVal) :
  let view := extract client gids in
  Permutation (combined_numbers view ++ combined_hidden view) (combined_all view) /\
  (length (combined_numbers view) + length (combined_hidden view) =
   length (combined_all view))%nat /\
  Forall (fun e => exists n, e_number e = Some n) (combined_numbers view) /\
  Forall (fun e => e_number e = None) (combined_hidden view).
Proof.
  unfold extract.
  destruct (extract_closed client gids) as [rs [es [E [Hp _]]]].
  rewrite E. cbn [combined_all combined_numbers combined_hidden].
  rewrite Forall_forall in Hp.
  assert (Hperm : Permutation (filter (is_type TNumber) es ++ filter (is_type THidden) es) es).
  { apply filter_partition_perm. intros e He. unfold is_type.
    destruct (e_type e); reflexivity. }
  split; [exact Hperm|]. split.
  - rewrite <- length_app. apply Permutation_length. exact Hperm.
  - split; apply Forall_forall; intros e He; apply filter_In in He;
      destruct He as [Hin Ht];
      destruct (Hp e Hin) as [s [_ [_ [[Hty [_ [Hn _]]]|[Hty [_ [Hn _]]]]]]];
      unfold is_type in Ht; rewrite Hty in Ht; try discriminate Ht; eauto.
Qed.

Lemma append_empty (a b : string) : (a ++ b)%string = "" -> a = "" /\ b = "".
Proof. destruct a; cbn [append]; [auto | discriminate]. Qed.

Lemma replace_empty_is_tag (pat s : string) :
  includes pat s = true -> replace pat "" s = "" -> s = pat.
Proof.
  intros Hi Hr. destruct (replace_first_occurrence pat s Hi) as [pre [post [E [R _]]]].
  rewrite Hr in R. symmetry in R. apply append_empty in R. destruct R as [-> ->].
  rewrite E. cbn [append]. apply append_nil_r.
Qed.

(** X9: an entry of [combined.all] has a truthy name, except the one
    case of the id ["@c.us"] resolved without a display name, whose
    number and name are both the empty string. *)
Theorem entry_names_edge (client : Client) (gids : list JsVal) :
  Forall (fun e => truthy (e_name e) = true \/
                   (e_id e = JStr "@c.us" /\ e_number e = Some "" /\
                    e_name e = JStr ""))
         (combined_all (extract client gids)).
Proof.
  unfold extract.
  destruct (extract_closed client gids) as [rs [es [E [Hp _]]]].
  rewrite E. cbn [combined_all].
  eapply Forall_impl; [|exact Hp].
  intros e [s [Hid [_ [[_ [Hi [Hn [Ht|Hname]]]]|[_ [_ [_ Ht]]]]]]]; try (now left).
  destruct (String.eqb_spec (replace phone_tag "" s) "") as [Hz|Hz].
  - right. rewrite Hid, Hn, Hname, Hz.
    rewrite (replace_empty_is_tag phone_tag s Hi Hz). repeat split.
  - left. rewrite Hname. cbn [truthy]. apply String.eqb_neq in Hz. now rewrite Hz.
Qed.

(** X10: the per-group tables agree with [combined.all]: the [numbers]
    rows of the groups, concatenated in group order, are the rows
    (number, name) of the entries that carry a number, and the
    [hiddenIds] rows are the rows (id, name) of the other entries. *)
Theorem group_rows_agree (client : Client) (gids : list JsVal) :
  let view := extract client gids in
  flat_map g_numbers (perGroupResults view) = number_rows (combined_all view) /\
  flat_map g_hiddenIds (perGroupResults view) = hidden_rows (combined_all view) /\
  (length (flat_map g_numbers (perGroupResults view)) +
   length (flat_map g_hiddenIds (perGroupResults view)) =
   length (combined_all view))%nat.
Proof.
  unfold extract.
  destruct (extract_closed client gids) as [rs [es [E [_ [Hn Hh]]]]].
  rewrite E. cbn [combined_all perGroupResults].
  rewrite <- Hn, <- Hh. repeat split. apply rows_length.
Qed.

(* ================================================================== *)
(** ** Further properties of the handlers *)
(* ================================================================== *)

(** X11: what [/extract] does with the selection: nothing selected
    redirects to the groups page; one value that is not an array is
    handled as the array of that value; and an empty array renders
    empty tables. *)
Theorem extract_handler_selection_edges (client : Client) (g : Globals)
  (body sel : JsVal)
  (Hauth : isAuthenticated g = true)
  (Hsel : member body "selectedGroups" = Ok sel) :
  (truthy sel = false ->
     extract_handler client g body = (Ok (Redirect "/groups"), g)) /\
  (truthy sel = true -> isArray sel = false ->
     forall body', member body' "selectedGroups" = Ok (JArr [sel]) ->
     extract_handler client g body = extract_handler client g body') /\
  (sel = JArr [] ->
     extract_handler client g body =
       (Ok (RenderMembers {| perGroupResults := []; combined_all := [];
                             combined_numbers := []; combined_hidden := [] |}), g)).
Proof.
  unfold extract_handler. rewrite Hauth, Hsel. cbn [negb].
  repeat split.
  - intros ->. reflexivity.
  - intros Ht Ha body' Hb. rewrite Hb, Ht. cbn [negb truthy].
    destruct sel; try discriminate Ha; reflexivity.
  - intros ->. reflexivity.
Qed.

Lemma extract_handler_selection_edges_witness :
  extract_handler client_witness authenticated
    (JObj [("selectedGroups", JStr "G2")]) =
  extract_handler client_witness authenticated
    (JObj [("selectedGroups", JArr [JStr "G2"])]).
Proof.
  exact (proj1 (proj2 (extract_handler_selection_edges client_witness authenticated
           (JObj [("selectedGroups", JStr "G2")]) (JStr "G2") eq_refl eq_refl))
           eq_refl eq_refl (JObj [("selectedGroups", JArr [JStr "G2"])]) eq_refl).
Defined.

(** *** The export handler's outcomes *)

Section ExportOutcome.

Variable env : ExportEnv.
Variable g : Globals.

(** X12: with a valid payload and a supported format the handler
    answers with the download of [exports/whatsapp-export-<date>.<format>]
    only after [fs.ensureDir] and the one write to that path have both
    succeeded; in every other case it answers "Export failed", having
    either stopped before any write or attempted that single write. *)
Theorem export_download_only_after_write (body p0 v fmt : JsVal) (format : string)
  (Hauth : isAuthenticated g = true)
  (Hp : member body "payload" = Ok p0)
  (Ht : truthy p0 = true)
  (Hd : decode_payload env p0 = Some v)
  (Hn : nonempty_array v = true)
  (Hf : member body "format" = Ok fmt)
  (Hl : lower_format fmt = Ok format)
  (Hs : supported format = true) :
  let fname := makeExportFilename env "whatsapp-export" format in
  let full := path_join (path_join (dirname env) "exports") fname in
  (exists w,
     export_handler env g body = (Ok (Download full fname), [EnsureDir (path_join (dirname env) "exports"); w]) /\
     written_path w = Some full /\
     fs_fails env (EnsureDir (path_join (dirname env) "exports")) = None /\ fs_fails env w = None) \/
  (export_handler env g body = (Ok (Send 500 "Export failed"), [EnsureDir (path_join (dirname env) "exports")])) \/
  (exists w,
     export_handler env g body = (Ok (Send 500 "Export failed"), [EnsureDir (path_join (dirname env) "exports"); w]) /\
     written_path w = Some full /\ fs_fails env w <> None).
Proof.
  cbv zeta.
  rewrite (export_handler_valid env g body p0 v fmt format) by assumption.
  unfold export_files, io_bind, fs_call, io_lift, io_ret. cbn [app].
  destruct (fs_fails env (EnsureDir (path_join (dirname env) "exports"))) as [e|] eqn:Edir; [right; left; reflexivity|].
  unfold supported in Hs.
  destruct (String.eqb_spec format "csv") as [->|_].
  { destruct (json2csv env csv_fields v) as [csv|e]; [|right; left; reflexivity].
    destruct (fs_fails env (WriteFile _ csv)) as [e|] eqn:Ew.
    - right. right. eexists. split; [reflexivity|]. split; [reflexivity|].
      rewrite Ew. discriminate.
    - left. eexists. split; [reflexivity|]. repeat split. exact Ew. }
  destruct (String.eqb_spec format "xlsx") as [->|_].
  { destruct (json_to_sheet env v) as [ws|e]; [|right; left; reflexivity].
    destruct (fs_fails env (WriteWorkbook _ "Export" ws)) as [e|] eqn:Ew.
    - right. right. eexists. split; [reflexivity|]. split; [reflexivity|].
      rewrite Ew. discriminate.
    - left. eexists. split; [reflexivity|]. repeat split. exact Ew. }
  destruct (String.eqb_spec format "json") as [->|_]; [|discriminate Hs].
  destruct (JSON_stringify v) as [data|]; [|right; left; reflexivity].
  destruct (fs_fails env (WriteFile _ data)) as [e|] eqn:Ew.
  - right. right. eexists. split; [reflexivity|]. split; [reflexivity|].
    rewrite Ew. discriminate.
  - left. eexists. split; [reflexivity|]. repeat split. exact Ew.
Qed.


(** X14: with a valid payload, a format that is truthy and not a string
    makes the handler throw a [TypeError] before any file-system call:
    the call of [toLowerCase] is outside the [try] block. *)
Theorem export_non_string_format_throws (body p0 v fmt : JsVal)
  (Hauth : isAuthenticated g = true)
  (Hp : member body "payload" = Ok p0)
  (Ht : truthy p0 = true)
  (Hd : decode_payload env p0 = Some v)
  (Hn : nonempty_array v = true)
  (Hf : member body "format" = Ok fmt)
  (Hfmt : truthy fmt = true)
  (Hty : typeof fmt <> "string") :
  exists err,
    export_handler env g body = (Throw err, []) /\ err_name err = TypeError.
Proof.
  unfold export_handler. rewrite Hauth, Hp, Ht, Hd, Hn, Hf. cbn [negb bind].
  unfold lower_format, js_or. rewrite Hfmt.
  destruct fmt; try (eexists; split; reflexivity).
  exfalso. apply Hty. reflexivity.
Qed.

End ExportOutcome.

Lemma export_download_only_after_write_witness :
  export_handler env_witness authenticated (export_body "CSV") =
    (Ok (Download "/app/exports/whatsapp-export-2025-01-31.csv"
                  "whatsapp-export-2025-01-31.csv"),
     [EnsureDir "/app/exports";
      WriteFile "/app/exports/whatsapp-export-2025-01-31.csv"
                "groupName,groupId,name,number,id,type"]) /\
  ((exists w,
      export_handler env_witness authenticated (export_body "CSV") =
        (Ok (Download
               (path_join (path_join (dirname env_witness) "exports")
                  (makeExportFilename env_witness "whatsapp-export" "csv"))
               (makeExportFilename env_witness "whatsapp-export" "csv")),
         [EnsureDir (path_join (dirname env_witness) "exports"); w]) /\
      written_path w =
        Some (path_join (path_join (dirname env_witness) "exports")
                (makeExportFilename env_witness "whatsapp-export" "csv")) /\
      fs_fails env_witness (EnsureDir (path_join (dirname env_witness) "exports")) = None /\
      fs_fails env_witness w = None) \/
   export_handler env_witness authenticated (export_body "CSV") =
     (Ok (Send 500 "Export failed"),
      [EnsureDir (path_join (dirname env_witness) "exports")]) \/
   (exists w,
      export_handler env_witness authenticated (export_body "CSV") =
        (Ok (Send 500 "Export failed"),
         [EnsureDir (path_join (dirname env_witness) "exports"); w]) /\
      written_path w =
        Some (path_join (path_join (dirname env_witness) "exports")
                (makeExportFilename env_witness "whatsapp-export" "csv")) /\
      fs_fails env_witness w <> None)).
Proof.
  split; [reflexivity|].
  exact (export_download_only_after_write env_witness authenticated
           (export_body "CSV") payload_witness payload_witness (JStr "CSV") "csv"
           eq_refl eq_refl eq_refl eq_refl eq_refl eq_refl eq_refl eq_refl).
Defined.


Lemma export_non_string_format_throws_witness :
  exists err,
    export_handler env_witness authenticated
      (JObj [("payload", payload_witness); ("format", JNum 5)]) = (Throw err, []) /\
    err_name err = TypeError.
Proof.
  refine (export_non_string_format_throws env_witness authenticated
            (JObj [("payload", payload_witness); ("format", JNum 5)])
            payload_witness payload_witness (JNum 5)
            eq_refl eq_refl eq_refl eq_refl eq_refl eq_refl eq_refl _).
  discriminate.
Defined.

(** *** The routes that list chats *)

Lemma group_row_listable (c : JsVal) :
  listable c = true ->
  group_row c = Ok (field (field c "id") "_serialized",
                    js_or (field c "name") (JStr "(no name)")).
Proof.
  unfold listable. intros H. apply andb_prop in H. destruct H as [Hc Hi].
  apply negb_true_iff in Hc. apply negb_true_iff in Hi.
  unfold group_row.
  rewrite (member_field c "id" Hc eq_refl). cbn [bind].
  rewrite (member_field (field c "id") "_serialized" Hi eq_refl). cbn [bind].
  rewrite (member_field c "name" Hc eq_refl). reflexivity.
Qed.

Lemma group_row_unlistable (c : JsVal) :
  listable c = false ->
  exists e, group_row c = Throw e /\ err_name e = TypeError.
Proof.
  unfold listable, group_row. intros H.
  destruct (nullish c) eqn:Hc.
  - destruct (member_nullish c "id" Hc) as [e [-> He]]. exists e. split; [reflexivity|exact He].
  - cbn [negb andb] in H. apply negb_false_iff in H.
    rewrite (member_field c "id" Hc eq_refl). cbn [bind].
    destruct (member_nullish (field c "id") "_serialized" H) as [e [-> He]].
    exists e. split; [reflexivity|exact He].
Qed.

Lemma mapM_group_row (l : list JsVal) :
  (forallb listable l = true ->
   mapM group_row l =
     Ok (map (fun c => (field (field c "id") "_serialized",
                        js_or (field c "name") (JStr "(no name)"))) l)) /\
  (forallb listable l = false ->
   exists e, mapM group_row l = Throw e /\ err_name e = TypeError).
Proof.
  induction l as [|c l [IHok IHko]]; cbn [forallb mapM map].
  - split; [reflexivity | discriminate].
  - destruct (listable c) eqn:Hc; cbn [andb].
    + rewrite (group_row_listable c Hc). cbn [bind]. split.
      * intros H. rewrite (IHok H). reflexivity.
      * intros H. destruct (IHko H) as [e [-> He]]. exists e. split; [reflexivity|exact He].
    + split; [discriminate|]. intros _.
      destruct (group_row_unlistable c Hc) as [e [-> He]].
      exists e. split; [reflexivity|exact He].
Qed.

Lemma groups_handler_listing_aux (getChats : Result (list JsVal)) (g : Globals) :
  isAuthenticated g = true ->
  snd (groups_handler getChats g) =
    (if (length (groupsCache g) =? 0)%nat then refreshGroups getChats g else g) /\
  (forallb listable
     (groupsCache (if (length (groupsCache g) =? 0)%nat
                   then refreshGroups getChats g else g)) = true ->
   fst (groups_handler getChats g) =
     Ok (PageGroups
           (map (fun c => (field (field c "id") "_serialized",
                           js_or (field c "name") (JStr "(no name)")))
                (groupsCache (if (length (groupsCache g) =? 0)%nat
                              then refreshGroups getChats g else g))))) /\
  (forallb listable
     (groupsCache (if (length (groupsCache g) =? 0)%nat
                   then refreshGroups getChats g else g)) = false ->
   exists e, fst (groups_handler getChats g) = Throw e /\ err_name e = TypeError).
Proof.
  intros Hauth. unfold groups_handler. rewrite Hauth. cbn [negb].
  set (g' := if (length (groupsCache g) =? 0)%nat then refreshGroups getChats g else g).
  destruct (mapM_group_row (groupsCache g')) as [Hok Hko].
  repeat split.
  - destruct (mapM group_row (groupsCache g')); reflexivity.
  - intros H. rewrite (Hok H). reflexivity.
  - intros H. destruct (Hko H) as [e [-> He]]. exists e. split; [reflexivity|exact He].
Qed.

(** X15: for an authenticated session [/groups] refreshes the cache
    when it is empty and lists the cache otherwise unchanged: one row
    (id, name) per cached chat, in order, the name defaulting to
    "(no name)", when every cached chat and its [id] are objects; and it
    throws a [TypeError] as soon as one is not. *)
Theorem groups_handler_listing (getChats : Result (list JsVal)) (g : Globals)
  (Hauth : isAuthenticated g = true) :
  let g' := if (length (groupsCache g) =? 0)%nat
            then refreshGroups getChats g else g in
  snd (groups_handler getChats g) = g' /\
  (forallb listable (groupsCache g') = true ->
   fst (groups_handler getChats g) =
     Ok (PageGroups
           (map (fun c => (field (field c "id") "_serialized",
                           js_or (field c "name") (JStr "(no name)")))
                (groupsCache g')))) /\
  (forallb listable (groupsCache g') = false ->
   exists e, fst (groups_handler getChats g) = Throw e /\ err_name e = TypeError).
Proof.
  cbv zeta. unfold groups_handler. rewrite Hauth. cbn [negb].
  set (g' := if (length (groupsCache g) =? 0)%nat then refreshGroups getChats g else g).
  destruct (mapM_group_row (groupsCache g')) as [Hok Hko].
  repeat split.
  - destruct (mapM group_row (groupsCache g')); reflexivity.
  - intros H. rewrite (Hok H). reflexivity.
  - intros H. destruct (Hko H) as [e [-> He]]. exists e. split; [reflexivity|exact He].
Qed.

Lemma groups_handler_listing_witness :
  fst (groups_handler (Throw not_found)
         {| qrCodeData := JNull; isAuthenticated := true;
            groupsCache := [JObj [("id", JObj [("_serialized", JStr "G2")])]] |}) =
    Ok (PageGroups [(JStr "G2", JStr "(no name)")]).
Proof.
  exact (proj1 (proj2 (groups_handler_listing (Throw not_found)
           {| qrCodeData := JNull; isAuthenticated := true;
              groupsCache := [JObj [("id", JObj [("_serialized", JStr "G2")])]] |}
           eq_refl)) eq_refl).
Defined.



Lemma truthy_not_nullish (v : JsVal) : truthy v = true -> nullish v = false.
Proof. destruct v; simpl; congruence. Qed.

Lemma debug_row_object (c : JsVal) :
  nullish c = false -> debug_row c = Ok (debug_row_of c).
Proof.
  intros Hc. unfold debug_row, debug_row_of.
  rewrite (member_field c "id" Hc eq_refl),
          (member_field c "name" Hc eq_refl),
          (member_field c "isGroup" Hc eq_refl),
          (member_field c "kind" Hc eq_refl),
          (member_field c "unreadCount" Hc eq_refl). cbn [bind].
  destruct (truthy (field c "id")) eqn:Ht.
  - rewrite (member_field _ "_serialized" (truthy_not_nullish _ Ht) eq_refl).
    reflexivity.
  - reflexivity.
Qed.

Lemma mapM_debug_row (l : list JsVal) :
  (forallb (fun c => negb (nullish c)) l = true ->
   mapM debug_row l = Ok (map debug_row_of l)) /\
  (forallb (fun c => negb (nullish c)) l = false ->
   exists e, mapM debug_row l = Throw e /\ err_name e = TypeError).
Proof.
  induction l as [|c l [IHok IHko]]; cbn [forallb mapM map].
  - split; [reflexivity | discriminate].
  - destruct (nullish c) eqn:Hc; cbn [negb andb].
    + split; [discriminate|]. intros _. unfold debug_row.
      destruct (member_nullish c "id" Hc) as [e [-> He]].
      exists e. split; [reflexivity|exact He].
    + rewrite (debug_row_object c Hc). cbn [bind]. split.
      * intros H. rewrite (IHok H). reflexivity.
      * intros H. destruct (IHko H) as [e [-> He]].
        exists e. split; [reflexivity|exact He].
Qed.

(** X17: for an authenticated session [/debug-chats] answers 200 with
    the number of all chats and a sample of at most 200 rows, the first
    chats in order, when every chat is an object; when one chat is null
    or undefined, or [getChats] rejects, it answers 500 with the error
    as a string, never an exception. *)
Theorem debug_chats_handler_answers (getChats : Result (list JsVal))
  (g : Globals) (Hauth : isAuthenticated g = true) :
  (forall chats, getChats = Ok chats ->
     forallb (fun c => negb (nullish c)) chats = true ->
     debug_chats_handler getChats g =
       PageJson 200
         (JObj [("ok", JBool true);
                ("totalChats", JNum (Z.of_nat (length chats)));
                ("sample", JArr (map debug_row_of (firstn 200 chats)))]) /\
     length (map debug_row_of (firstn 200 chats)) = Nat.min 200 (length chats)) /\
  (forall chats, getChats = Ok chats ->
     forallb (fun c => negb (nullish c)) chats = false ->
     exists e, err_name e = TypeError /\
       debug_chats_handler getChats g =
         PageJson 500 (JObj [("ok", JBool false);
                             ("error", JStr (String_of_error e))])) /\
  (forall e, getChats = Throw e ->
     debug_chats_handler getChats g =
       PageJson 500 (JObj [("ok", JBool false);
                           ("error", JStr (String_of_error e))])).
Proof.
  unfold debug_chats_handler. rewrite Hauth. cbn [negb].
  repeat split.
  - subst getChats. cbn [bind].
    rewrite (proj1 (mapM_debug_row chats) H0). cbn [bind].
    rewrite firstn_map. reflexivity.
  - rewrite length_map, length_firstn. reflexivity.
  - intros chats -> H.
    destruct (proj2 (mapM_debug_row chats) H) as [e [Hm He]].
    exists e. split; [exact He|]. cbn [bind]. rewrite Hm. reflexivity.
  - intros e ->. reflexivity.
Qed.

Lemma debug_chats_handler_answers_witness :
  debug_chats_handler (Ok [JObj [("id", JObj [("_serialized", JStr "G2")]);
                                 ("isGroup", JBool true)]]) authenticated =
    PageJson 200
      (JObj [("ok", JBool true);
             ("totalChats", JNum 1);
             ("sample",
              JArr [JObj [("id", JStr "G2"); ("name", JNull);
                          ("isGroup", JBool true); ("kind", JNull);
                          ("unreadCount", JNum 0)]])]).
Proof.
  exact (proj1 (proj1 (debug_chats_handler_answers
                         (Ok [JObj [("id", JObj [("_serialized", JStr "G2")]);
                                    ("isGroup", JBool true)]])
                         authenticated eq_refl)
                 [JObj [("id", JObj [("_serialized", JStr "G2")]);
                        ("isGroup", JBool true)]] eq_refl eq_refl)).
Defined.

(** *** The session as a state machine *)

Lemma is_group_object (c : JsVal) : is_group c = true -> nullish c = false.
Proof.
  destruct c; try (intros _; reflexivity);
    intros H; vm_compute in H; discriminate H.
Qed.

Lemma refreshGroups_cache (getChats : Result (list JsVal)) (g : Globals) :
  Forall (fun c => is_group c = true) (groupsCache g) ->
  Forall (fun c => is_group c = true) (groupsCache (refreshGroups getChats g)).
Proof.
  intros H. unfold refreshGroups. destruct getChats as [chats|e]; [|exact H].
  destruct (forallb _ chats); [|exact H]. cbn [groupsCache].
  apply Forall_forall. intros c Hc. apply filter_In in Hc. exact (proj2 Hc).
Qed.

Lemma session_step_cache (g : Globals) (e : SessionEvent) :
  Forall (fun c => is_group c = true) (groupsCache g) ->
  Forall (fun c => is_group c = true) (groupsCache (session_step g e)).
Proof.
  intros H. destruct e as [dataUrl|getChats| | |getChats|getChats];
    cbn [session_step].
  - destruct dataUrl; exact H.
  - unfold on_ready. apply refreshGroups_cache. exact H.
  - exact H.
  - exact H.
  - unfold groups_handler. destruct (negb (isAuthenticated g)); [exact H|].
    match goal with
    | |- context [mapM group_row (groupsCache ?x)] =>
        assert (Hx : Forall (fun c => is_group c = true) (groupsCache x));
        [|destruct (mapM group_row (groupsCache x)); exact Hx]
    end.
    destruct (length (groupsCache g) =? 0)%nat;
      [apply refreshGroups_cache|]; exact H.
  - unfold refresh_groups_handler. destruct (negb (isAuthenticated g));
      [exact H|]. cbn [snd]. apply refreshGroups_cache. exact H.
Qed.

Lemma session_step_locked (g : Globals) (e : SessionEvent) :
  is_ready e = false ->
  isAuthenticated g = false /\ groupsCache g = [] ->
  isAuthenticated (session_step g e) = false /\
  groupsCache (session_step g e) = [].
Proof.
  intros He [Ha Hc]. destruct e as [dataUrl|getChats| | |getChats|getChats];
    try discriminate He; cbn [session_step].
  - destruct dataUrl; split; assumption.
  - split; assumption.
  - split; assumption.
  - unfold groups_handler. rewrite Ha. split; assumption.
  - unfold refresh_groups_handler. rewrite Ha. split; assumption.
Qed.

Lemma session_fold_locked (events : list SessionEvent) (g : Globals) :
  forallb (fun e => negb (is_ready e)) events = true ->
  isAuthenticated g = false /\ groupsCache g = [] ->
  isAuthenticated (fold_left session_step events g) = false /\
  groupsCache (fold_left session_step events g) = [].
Proof.
  revert g. induction events as [|e events IH]; intros g Hev Hg.
  - exact Hg.
  - cbn [forallb] in Hev. apply andb_prop in Hev. destruct Hev as [He Hev].
    apply negb_true_iff in He. cbn [fold_left].
    apply IH; [exact Hev|]. apply session_step_locked; assumption.
Qed.

(** X18: as long as no [ready] event has fired, whatever other events
    and requests came before, the session is unauthenticated with an
    empty cache, and every protected route refuses the request: it
    redirects to [/] or answers 403, calls neither the client nor the
    file system, and leaves the state as it is. *)
Theorem routes_locked_until_ready (events : list SessionEvent)
  (client : Client) (env : ExportEnv) (getChats : Result (list JsVal))
  (body : JsVal)
  (Hev : forallb (fun e => negb (is_ready e)) events = true) :
  isAuthenticated (session_run events) = false /\
  groupsCache (session_run events) = [] /\
  extract_handler client (session_run events) body =
    (Ok (Redirect "/"), session_run events) /\
  export_handler env (session_run events) body =
    (Ok (Send 403 "Not authenticated"), []) /\
  groups_handler getChats (session_run events) =
    (Ok (PageRedirect "/"), session_run events) /\
  refresh_groups_handler getChats (session_run events) =
    (PageRedirect "/", session_run events) /\
  debug_chats_handler getChats (session_run events) =
    PageSend 403 "Not authenticated".
Proof.
  destruct (session_fold_locked events initial_globals Hev
              (conj eq_refl eq_refl)) as [Ha Hc].
  fold (session_run events) in Ha, Hc.
  unfold extract_handler, export_handler, groups_handler,
    refresh_groups_handler, debug_chats_handler.
  rewrite Ha. cbn [negb]. repeat split; assumption.
Qed.

Lemma routes_locked_until_ready_witness :
  export_handler env_witness
    (session_run [EvQr (Ok (JStr "data:image/png;base64,"));
                  EvGroupsRoute (Ok [chat_witness]); EvDisconnected])
    (export_body "json") =
    (Ok (Send 403 "Not authenticated"), []).
Proof.
  exact (proj1 (proj2 (proj2 (proj2
           (routes_locked_until_ready
              [EvQr (Ok (JStr "data:image/png;base64,"));
               EvGroupsRoute (Ok [chat_witness]); EvDisconnected]
              client_witness env_witness (Ok [chat_witness])
              (export_body "json") eq_refl))))).
Defined.

(** X19: whatever events and requests a session has seen, the cache
    holds only chats the group filter accepts, each of them an object
    (never null or undefined), so that [/groups] can only fail on a
    cached chat whose [id] is missing. *)
Theorem session_cache_holds_groups (events : list SessionEvent) :
  Forall (fun c => is_group c = true /\ nullish c = false)
         (groupsCache (session_run events)) /\
  (forall getChats,
     isAuthenticated (session_run events) = true ->
     groupsCache (session_run events) <> [] ->
     Forall (fun c => nullish (field c "id") = false)
            (groupsCache (session_run events)) ->
     exists groups,
       groups_handler getChats (session_run events) =
         (Ok (PageGroups groups), session_run events) /\
       length groups = length (groupsCache (session_run events))).
Proof.
  assert (Hinv : forall evs g,
            Forall (fun c => is_group c = true) (groupsCache g) ->
            Forall (fun c => is_group c = true)
                   (groupsCache (fold_left session_step evs g))).
  { induction evs as [|e evs IH]; intros g Hg; [exact Hg|].
    cbn [fold_left]. apply IH. apply session_step_cache. exact Hg. }
  specialize (Hinv events initial_globals (Forall_nil _)).
  fold (session_run events) in Hinv.
  split.
  - apply Forall_forall. intros c Hc.
    rewrite Forall_forall in Hinv. specialize (Hinv c Hc).
    split; [exact Hinv | exact (is_group_object c Hinv)].
  - intros getChats Hauth Hne Hids.
    assert (Hlist : forallb listable (groupsCache (session_run events)) = true).
    { apply forallb_forall. intros c Hc. unfold listable.
      rewrite Forall_forall in Hinv, Hids.
      rewrite (is_group_object c (Hinv c Hc)), (Hids c Hc). reflexivity. }
    unfold groups_handler. rewrite Hauth. cbn [negb].
    destruct (groupsCache (session_run events)) as [|c0 cs] eqn:Ecache;
      [congruence|].
    cbn [length Nat.eqb]. rewrite Ecache.
    rewrite (proj1 (mapM_group_row (c0 :: cs)) Hlist).
    eexists. split; [reflexivity|]. rewrite length_map. reflexivity.
Qed.

Lemma session_cache_holds_groups_witness :
  exists groups,
    groups_handler (Throw not_found)
      (session_run [EvReady (Ok [JStr "status";
                                 JObj [("id", JObj [("_serialized", JStr "G2");
                                                    ("server", JStr "g.us")])]])]) =
      (Ok (PageGroups groups),
       session_run [EvReady (Ok [JStr "status";
                                 JObj [("id", JObj [("_serialized", JStr "G2");
                                                    ("server", JStr "g.us")])]])]) /\
    length groups = 1%nat.
Proof.
  refine (proj2 (session_cache_holds_groups
                   [EvReady (Ok [JStr "status";
                                 JObj [("id", JObj [("_serialized", JStr "G2");
                                                    ("server", JStr "g.us")])]])])
            (Throw not_found) eq_refl _ _).
  - vm_compute. discriminate.
  - vm_compute. repeat constructor.
Defined.
